(** * Pcholfarm: the economy engine of [App.py]

    A shallow embedding of the game logic of [App.py] (reward draw under a
    cooldown, part stock, assembly, part sale, market listing) and the
    properties of its specification.

    Conventions of the embedding.
    - The PostgreSQL tables are the fields of [state].  A table with a key
      ([users]: PRIMARY KEY id, [parts]: UNIQUE(user_id, template_id,
      part_type, rarity)) is a finite map from the key to the other columns;
      a table that only grows by a SERIAL id ([bees], [market_listings],
      [spins_log], [bee_templates]) is the list of its rows in insertion
      order.  Columns that no statement of the program reads ([created_at],
      [description], the serial id of [parts] and [spins_log]) are left out.
    - Every [conn.execute]/[fetch]/[fetchrow] is one function on the tables,
      written next to the SQL text it stands for.  A handler is the
      sequential composition of its statements: one request at a time.
    - Integers are [Z].  Python's are unbounded; the INTEGER and BIGINT
      columns are read as mathematical integers, so the out-of-range errors
      of PostgreSQL are outside the model.
    - Timestamps ([datetime], TIMESTAMP) are microseconds as [Z].
    - [secrets.randbelow] and [secrets.choice] and SQL's [ORDER BY RANDOM()]
      are nodes of a finitely branching tree of equally likely outcomes
      ([Rand]).
    - [message.answer(...)] is the [reply] a handler returns. *)

From stdpp Require Import gmap strings list fin_maps pretty sorting.
From Stdlib Require Import QArith.

Local Open Scope Z_scope.

(** ** Randomness: [secrets] *)

Module Secrets.

(** A computation that draws from the uniform source.  [Below n k] is
    [secrets.randbelow(n)] followed by [k]; [Raise] is a Python exception. *)
Inductive Rand (A : Type) : Type :=
| Ret (a : A)
| Raise (e : string)
| Below (n : nat) (k : nat → Rand A).
Global Arguments Ret {A} a.
Global Arguments Raise {A} e.
Global Arguments Below {A} n k.

Fixpoint bind {A B} (m : Rand A) (f : A → Rand B) : Rand B :=
  match m with
  | Ret a => f a
  | Raise e => Raise e
  | Below n k => Below n (λ i, bind (k i) f)
  end.

(** [secrets.randbelow(n)]: an int in [0, n). *)
Definition randbelow (n : nat) : Rand nat :=
  match n with
  | O => Raise "ValueError"
  | _ => Below n Ret
  end.

(** [secrets.choice(seq)]: [seq[randbelow(len(seq))]]. *)
Definition choice {A} (l : list A) : Rand A :=
  match l with
  | [] => Raise "IndexError"
  | _ =>
      Below (length l)
        (λ i, match l !! i with Some a => Ret a | None => Raise "IndexError" end)
  end.

(** [yields m a]: [a] is a possible result of [m]. *)
Inductive yields {A} : Rand A → A → Prop :=
| yields_ret a : yields (Ret a) a
| yields_below n k i a : (i < n)%nat → yields (k i) a → yields (Below n k) a.

Definition Qsum (l : list Q) : Q := foldr Qplus 0%Q l.

(** Probability that the result of [m] satisfies [P]; every [Below n] gives
    each of its [n] branches the weight 1/n. *)
Fixpoint prob {A} (m : Rand A) (P : A → bool) : Q :=
  match m with
  | Ret a => if P a then 1%Q else 0%Q
  | Raise _ => 0%Q
  | Below n k =>
      (Qsum (map (λ i, prob (k i) P) (seq 0 n)) / inject_Z (Z.of_nat n))%Q
  end.

(** [m] is uniform over the (duplicate-free) list [l]. *)
Definition uniform_over (m : Rand Z) (l : list Z) : Prop :=
  ∀ v : Z,
    (prob m (Z.eqb v) ==
       if bool_decide (v ∈ l) then 1 / inject_Z (Z.of_nat (length l)) else 0)%Q.

End Secrets.
Import Secrets.

Notation "x <~ m ;; f" := (bind m (λ x, f))
  (at level 100, m at next level, right associativity, only parsing).

(** ** Game configuration *)

Definition RARITIES : list string :=
  ["Обычная"; "Сверхредкая"; "Эпическая"; "Легендарная"; "Мифическая"; "Дикая"].

Definition PART_TYPES : list string := ["крылья"; "тельце"; "жало"; "голова"].

Definition ROLES : list string := ["Танк"; "Хиллер"; "Саппорт"].

(** What [draw_amount] does once the percentile roll [r] is known. *)
Definition draw_amount_roll (r : Z) : Rand Z :=
  if r <=? 45 then choice [1; 2; 3]
  else if r <=? 45 + 35 then choice [4; 5; 6]
  else if r <=? 45 + 35 + 15 then choice [7; 8; 9]
  else Ret 10.

Definition draw_amount : Rand Z :=
  r0 <~ randbelow 100 ;; draw_amount_roll (Z.of_nat r0 + 1).

Definition RARITY_BASE_VALUE : gmap string Z :=
  list_to_map
    [("Обычная", 50); ("Сверхредкая", 200); ("Эпическая", 800);
     ("Легендарная", 3000); ("Мифическая", 12000); ("Дикая", 50000)].

(** [RARITY_BASE_VALUE.get(rarity, 10)] *)
Definition price_per (rarity : string) : Z :=
  default 10 (RARITY_BASE_VALUE !! rarity).

(** [list.sort(key=...)]: stable, ascending in the key. *)
Fixpoint insert_by {A} (key : A → Z) (x : A) (l : list A) : list A :=
  match l with
  | [] => [x]
  | y :: l' => if key x <=? key y then x :: l else y :: insert_by key x l'
  end.

Definition sort_by {A} (key : A → Z) (l : list A) : list A :=
  foldr (insert_by key) [] l.

(** [rar_order = {r: i for i, r in enumerate(RARITIES)}] *)
Definition rar_order : gmap string Z :=
  foldl (λ m ir, <[ir.2 := Z.of_nat ir.1]> m) ∅ (imap (λ i r, (i, r)) RARITIES).

(** The sort key [lambda x: rar_order.get(x, 999)]. *)
Definition rar_rank (x : string) : Z := default 999 (rar_order !! x).

(** ** The tables *)

Record user_row := UserRow {
  username : option string;
  nickname : string;
  coins : Z;
  last_spin : option Z
}.

Record template_row := TemplateRow {
  t_id : Z;
  t_name : string;
  t_rarity : string;
  t_role : string;
  t_base_value : Z
}.

(** Key of [parts]: (user_id, template_id, part_type, rarity). *)
Abbreviation part_key := (Z * Z * string * string)%type.

Record bee_row := BeeRow {
  b_id : Z;
  b_user_id : Z;
  b_template_id : Z;
  b_rarity : string;
  b_role : string;
  b_level : Z;
  b_exp : Z
}.

Record listing_row := ListingRow {
  m_id : Z;
  m_seller_id : Z;
  m_bee_id : Z;
  m_price : Z
}.

Record spin_row := SpinRow {
  s_user_id : Z;
  s_template_id : Z;
  s_part_type : string;
  s_rarity : string;
  s_amount : Z
}.

Record state := State {
  users : gmap Z user_row;
  bee_templates : list template_row;
  parts : gmap part_key Z;
  bees : list bee_row;
  bees_id_seq : Z;               (* next value of the SERIAL of [bees] *)
  market_listings : list listing_row;
  market_listings_id_seq : Z;    (* next value of the SERIAL of [market_listings] *)
  spins_log : list spin_row
}.

Definition set_users (f : gmap Z user_row → gmap Z user_row) (st : state) : state :=
  State (f (users st)) (bee_templates st) (parts st) (bees st) (bees_id_seq st)
        (market_listings st) (market_listings_id_seq st) (spins_log st).

Definition set_parts (f : gmap part_key Z → gmap part_key Z) (st : state) : state :=
  State (users st) (bee_templates st) (f (parts st)) (bees st) (bees_id_seq st)
        (market_listings st) (market_listings_id_seq st) (spins_log st).

(** The user of the chat front end ([types.User]). *)
Record tg_user := TgUser {
  tg_id : Z;
  tg_username : option string;
  tg_full_name : string
}.

(** What a handler answers. *)
Inductive reply : Type :=
| CooldownActive (remaining : Z)      (* "Фортуну можно крутить раз в 24 часа..." *)
| NoTemplate                          (* "Ошибка: не найдено шаблона пчелы." *)
| SpinResult (name rarity part_type : string) (amount : Z) (bee_id : option Z)
| NoPartsForTemplate                  (* "У вас нет деталей для этого шаблона." *)
| Assembled (bee_id : Z)              (* "Вы собрали пчелу! ID: ..." *)
| NotEnoughParts                      (* "Не удалось собрать пчелу..." *)
| BadPartType                         (* "part_type должен быть одним из: ..." *)
| InsufficientStock                   (* "Недостаточно деталей." *)
| SoldParts (amount : Z) (part_type rarity : string) (total : Z)
| NotOwner                            (* "Пчела не найдена или не ваша." *)
| Listed (bee_id price : Z)           (* "Пчела ID ... выставлена на рынок..." *)
| ListingGone
| InsufficientFunds
| NotFound
| Bought (listing_id : Z).

(** Python truthiness of an [Optional[int]]: [None] and [0] are false. *)
Definition truthy (o : option Z) : bool :=
  match o with
  | Some i => negb (i =? 0)
  | None => false
  end.

(** ** Game logic helpers *)

(** [SELECT * FROM bee_templates ORDER BY RANDOM() LIMIT 1] *)
Definition pick_random_template (st : state) : Rand (option template_row) :=
  match bee_templates st with
  | [] => Ret None
  | ts => Below (length ts) (λ i, Ret (ts !! i))
  end.

(** [INSERT INTO parts ... ON CONFLICT (...) DO UPDATE SET amount =
    parts.amount + EXCLUDED.amount] *)
Definition upsert_parts (k : part_key) (amount : Z) (ps : gmap part_key Z)
  : gmap part_key Z :=
  match ps !! k with
  | Some a => <[k := a + amount]> ps
  | None => <[k := amount]> ps
  end.

(** The two statements of [give_parts_to_user], for a [template_id] of the
    catalog, which is what its one caller passes; the refusal of any other
    id by REFERENCES bee_templates(id) is not modelled. *)
Definition give_parts_to_user (st : state) (user_id template_id : Z)
    (part_type rarity : string) (amount : Z) : state :=
  State (users st) (bee_templates st)
        (upsert_parts (user_id, template_id, part_type, rarity) amount (parts st))
        (bees st) (bees_id_seq st)
        (market_listings st) (market_listings_id_seq st)
        (spins_log st ++ [SpinRow user_id template_id part_type rarity amount]).

(** One row of [parts] through [SELECT part_type, amount ... WHERE user_id=$1
    AND template_id=$2 AND rarity=$3]. *)
Definition part_amount_of_row (user_id template_id : Z) (rarity : string)
    (row : part_key * Z) : option (string * Z) :=
  let '((u, t, pt, r), a) := row in
  if decide (u = user_id ∧ t = template_id ∧ r = rarity) then Some (pt, a) else None.

(** [SELECT part_type, amount FROM parts
     WHERE user_id=$1 AND template_id=$2 AND rarity=$3] *)
Definition select_part_amounts (ps : gmap part_key Z) (user_id template_id : Z)
    (rarity : string) : list (string * Z) :=
  omap (part_amount_of_row user_id template_id rarity) (map_to_list ps).

(** [{r['part_type']: r['amount'] for r in rows}] *)
Definition dict_of_rows (rows : list (string * Z)) : gmap string Z :=
  foldl (λ m row, <[row.1 := row.2]> m) ∅ rows.

(** [UPDATE parts SET amount = amount - 1
     WHERE user_id=$1 AND template_id=$2 AND part_type=$3 AND rarity=$4] *)
Definition consume_one (user_id template_id : Z) (rarity : string)
    (ps : gmap part_key Z) (pt : string) : gmap part_key Z :=
  alter (λ a, a - 1) (user_id, template_id, pt, rarity) ps.

(** [SELECT role FROM bee_templates WHERE id=$1] *)
Definition select_role (st : state) (template_id : Z) : option string :=
  t_role <$> (snd <$> list_find (λ t, t_id t = template_id) (bee_templates st)).

(** [INSERT INTO bees (user_id, template_id, rarity, role) VALUES (...)
     RETURNING id]; [level] and [exp] take their defaults 1 and 0. *)
Definition insert_bee (st : state) (user_id template_id : Z)
    (rarity role : string) : state * Z :=
  let id := bees_id_seq st in
  (State (users st) (bee_templates st) (parts st)
         (bees st ++ [BeeRow id user_id template_id rarity role 1 0]) (id + 1)
         (market_listings st) (market_listings_id_seq st) (spins_log st),
   id).

Definition try_assemble (st : state) (user_id template_id : Z) (rarity : string)
  : Rand (state * option Z) :=
  let rows := select_part_amounts (parts st) user_id template_id rarity in
  let parts_map := dict_of_rows rows in
  if forallb (λ pt, bool_decide (1 ≤ default 0 (parts_map !! pt))) PART_TYPES then
    let st1 :=
      set_parts (λ ps, foldl (consume_one user_id template_id rarity) ps PART_TYPES) st in
    role <~ match select_role st1 template_id with
            | Some r => Ret r
            | None => choice ROLES
            end ;;
    let '(st2, id) := insert_bee st1 user_id template_id rarity role in
    Ret (st2, Some id)
  else Ret (st, None).

(** [UPDATE users SET coins = coins + $1 WHERE id=$2] *)
Definition update_coins (user_id amount : Z) (us : gmap Z user_row)
  : gmap Z user_row :=
  alter (λ u, UserRow (username u) (nickname u) (coins u + amount) (last_spin u))
        user_id us.

(** [ensure_user]: [INSERT INTO users (id, username, nickname, coins)
    VALUES (...) ON CONFLICT (id) DO UPDATE SET username=EXCLUDED.username] *)
Definition py_or_none (s : option string) : option string :=
  match s with
  | Some "" => None
  | _ => s
  end.

Definition ensure_user (st : state) (user : tg_user) : state :=
  let uname := py_or_none (tg_username user) in
  let nick :=
    if bool_decide (tg_full_name user = "") then
      match uname with
      | Some n => n
      | None => "user" +:+ pretty (tg_id user)
      end
    else tg_full_name user in
  set_users (λ us,
    match us !! tg_id user with
    | Some u => <[tg_id user := UserRow uname (nickname u) (coins u) (last_spin u)]> us
    | None => <[tg_id user := UserRow uname nick 0 None]> us
    end) st.

(** ** Handlers *)

(** [timedelta(hours=24)], in microseconds. *)
Definition hours24 : Z := 24 * 3600 * 1000000.

(** [UPDATE users SET last_spin=$1 WHERE id=$2] *)
Definition update_last_spin (user_id now : Z) (us : gmap Z user_row)
  : gmap Z user_row :=
  alter (λ u, UserRow (username u) (nickname u) (coins u) (Some now)) user_id us.

(** [cmd_daily_spin]; [now] is [datetime.utcnow()]. *)
Definition cmd_daily_spin (st : state) (user : tg_user) (now : Z)
  : Rand (state * reply) :=
  let st := ensure_user st user in
  let row := users st !! tg_id user in
  let cooling :=
    match row with
    | Some u =>
        match last_spin u with
        | Some last => if now - last <? hours24 then Some (hours24 - (now - last)) else None
        | None => None
        end
    | None => None
    end in
  match cooling with
  | Some remaining => Ret (st, CooldownActive remaining)
  | None =>
      tmpl <~ pick_random_template st ;;
      match tmpl with
      | None => Ret (st, NoTemplate)
      | Some tmpl =>
          let template_id := t_id tmpl in
          let rarity := t_rarity tmpl in
          part_type <~ choice PART_TYPES ;;
          amount <~ draw_amount ;;
          let st := give_parts_to_user st (tg_id user) template_id part_type rarity amount in
          let st := set_users (update_last_spin (tg_id user) now) st in
          res <~ try_assemble st (tg_id user) template_id rarity ;;
          let '(st, bee_id) := res in
          Ret (st, SpinResult (t_name tmpl) rarity part_type amount
                     (if truthy bee_id then bee_id else None))
      end
  end.

(** [SELECT DISTINCT rarity FROM parts
     WHERE user_id=$1 AND template_id=$2 AND amount>0] *)
Definition select_rarities (ps : gmap part_key Z) (user_id template_id : Z)
  : list string :=
  remove_dups
    (omap (λ row : part_key * Z,
             let '((u, t, pt, r), a) := row in
             if decide (u = user_id ∧ t = template_id ∧ 0 < a)
             then Some r else None)
          (map_to_list ps)).

(** The [for rar in rarities] loop of the [/assemble] branch, with the
    current value of [assembled]. *)
Fixpoint assemble_loop (st : state) (user_id template_id : Z)
    (rarities : list string) (assembled : option Z) : Rand (state * option Z) :=
  match rarities with
  | [] => Ret (st, assembled)
  | rar :: rest =>
      res <~ try_assemble st user_id template_id rar ;;
      let '(st, assembled) := res in
      if truthy assembled then Ret (st, assembled)
      else assemble_loop st user_id template_id rest assembled
  end.

(** The list the loop runs over: [rarities.sort(key=lambda x:
    rar_order.get(x, 999))]. *)
Definition assemble_order (ps : gmap part_key Z) (user_id template_id : Z)
  : list string :=
  sort_by rar_rank (select_rarities ps user_id template_id).

(** The [/assemble <template_id>] branch of [generic_text]. *)
Definition assemble (st : state) (user_id template_id : Z) : Rand (state * reply) :=
  match select_rarities (parts st) user_id template_id with
  | [] => Ret (st, NoPartsForTemplate)
  | _ =>
      let rarities := assemble_order (parts st) user_id template_id in
      res <~ assemble_loop st user_id template_id rarities None ;;
      let '(st, assembled) := res in
      match assembled with
      | Some id => if truthy assembled then Ret (st, Assembled id) else Ret (st, NotEnoughParts)
      | None => Ret (st, NotEnoughParts)
      end
  end.

(** The rows [(amount, rarity)] of [parts WHERE user_id=$1 AND template_id=$2
    AND part_type=$3]. *)
Definition select_amount_rarity (ps : gmap part_key Z) (user_id template_id : Z)
    (part_type : string) : list (Z * string) :=
  omap (λ row : part_key * Z,
          let '((u, t, pt, r), a) := row in
          if decide (u = user_id ∧ t = template_id ∧ pt = part_type)
          then Some (a, r) else None)
       (map_to_list ps).

(** [SELECT amount, rarity FROM parts WHERE user_id=$1 AND template_id=$2
     AND part_type=$3 ORDER BY amount DESC LIMIT 1].  When several rows have
    the highest amount SQL leaves open which one is fetched; this function
    takes one of them, and no statement below says which. *)
Definition select_top_amount (ps : gmap part_key Z) (user_id template_id : Z)
    (part_type : string) : option (Z * string) :=
  head (sort_by (λ row : Z * string, - row.1)
          (select_amount_rarity ps user_id template_id part_type)).

(** [UPDATE parts SET amount = amount - $1 WHERE user_id=$2 AND
     template_id=$3 AND part_type=$4 AND amount>=$1] *)
Definition reduce_parts (amount user_id template_id : Z) (part_type : string)
    (ps : gmap part_key Z) : gmap part_key Z :=
  map_imap (λ (k : part_key) a,
              let '(u, t, pt, r) := k in
              if decide (u = user_id ∧ t = template_id ∧ pt = part_type ∧ amount ≤ a)
              then Some (a - amount) else Some a) ps.

(** The [/sell_part <template_id> <part_type> <amount>] branch. *)
Definition sell_part (st : state) (user_id template_id : Z) (part_type : string)
    (amount : Z) : state * reply :=
  if bool_decide (part_type ∈ PART_TYPES) then
    match select_top_amount (parts st) user_id template_id part_type with
    | None => (st, InsufficientStock)
    | Some (row_amount, rarity) =>
        if row_amount <? amount then (st, InsufficientStock)
        else
          let total := price_per rarity * amount in
          let st := set_parts (reduce_parts amount user_id template_id part_type) st in
          let st := set_users (update_coins user_id total) st in
          (st, SoldParts amount part_type rarity total)
    end
  else (st, BadPartType).

(** [SELECT id FROM bees WHERE id=$1 AND user_id=$2] *)
Definition select_own_bee (st : state) (bee_id user_id : Z) : option Z :=
  b_id <$> (snd <$> list_find (λ b, b_id b = bee_id ∧ b_user_id b = user_id) (bees st)).

(** [INSERT INTO market_listings (seller_id, bee_id, price) VALUES ($1,$2,$3)] *)
Definition insert_listing (st : state) (seller_id bee_id price : Z) : state :=
  let id := market_listings_id_seq st in
  State (users st) (bee_templates st) (parts st) (bees st) (bees_id_seq st)
        (market_listings st ++ [ListingRow id seller_id bee_id price]) (id + 1)
        (spins_log st).

(** The [/sell_bee <bee_id> <price>] branch. *)
Definition sell_bee (st : state) (user_id bee_id price : Z) : state * reply :=
  match select_own_bee st bee_id user_id with
  | None => (st, NotOwner)
  | Some _ => (insert_listing st user_id bee_id price, Listed bee_id price)
  end.

(** [SELECT * FROM market_listings WHERE id=$1] *)
Definition select_listing (st : state) (lid : Z) : option listing_row :=
  snd <$> list_find (λ l, m_id l = lid) (market_listings st).

(** Modelled from the spec: the [/buy] branch after the listing is fetched.
    The source file ends inside that branch, at the reply for a missing
    listing; the settlement follows the specification of [Marketplace.buy]
    and [EconomyLedger.debit]: the buyer is debited only if the balance
    covers the price ([InsufficientFunds] and no change otherwise), the
    seller is credited the same amount, the creature goes to the buyer and
    the listing is closed. *)
Definition settle_purchase (st : state) (buyer_id : Z) (l : listing_row)
  : state * reply :=
  match users st !! buyer_id with
  | None => (st, NotFound)
  | Some buyer =>
      if coins buyer <? m_price l then (st, InsufficientFunds)
      else
        (State (update_coins (m_seller_id l) (m_price l)
                  (update_coins buyer_id (- m_price l) (users st)))
               (bee_templates st) (parts st)
               (map (λ b, if bool_decide (b_id b = m_bee_id l)
                          then BeeRow (b_id b) buyer_id (b_template_id b) (b_rarity b)
                                      (b_role b) (b_level b) (b_exp b)
                          else b) (bees st))
               (bees_id_seq st)
               (filter (λ l', m_id l' ≠ m_id l) (market_listings st))
               (market_listings_id_seq st) (spins_log st),
         Bought (m_id l))
  end.

(** The [/buy <listing_id>] branch: the fetch of the listing is the source's,
    the settlement is [settle_purchase]. *)
Definition buy (st : state) (buyer_id lid : Z) : state * reply :=
  match select_listing st lid with
  | None => (st, ListingGone)
  | Some l => settle_purchase st buyer_id l
  end.

(** ** Stock, and properties of states *)

(** The user's stock of one part-kind of a template at a rarity: the
    [amount] of the row of [parts], 0 when there is none. *)
Definition stock (st : state) (user_id template_id : Z) (part_type rarity : string) : Z :=
  default 0 (parts st !! (user_id, template_id, part_type, rarity)).

(** Every coin balance and every part-stock amount is non-negative. *)
Definition nonneg_state (st : state) : Prop :=
  map_Forall (λ _ u, 0 ≤ coins u) (users st) ∧ map_Forall (λ _ a, 0 ≤ a) (parts st).

(** [user_id] is the [user_id] of the bee [bee_id]. *)
Definition owns (st : state) (user_id bee_id : Z) : Prop :=
  ∃ b, b ∈ bees st ∧ b_id b = bee_id ∧ b_user_id b = user_id.

(** The listings of a bee. *)
Definition listings_of (st : state) (bee_id : Z) : list listing_row :=
  filter (λ l, m_bee_id l = bee_id) (market_listings st).

(** A catalog of one common template and no user yet. *)
Definition fresh : state :=
  State ∅ [TemplateRow 1 "Страж-Обы-1" "Обычная" "Танк" 50] ∅ [] 1 [] 1 [].

Definition player : tg_user := TgUser 7 (Some "bee") "Bee Keeper".

(** [player] after a first draw at time 1000 that gave two wings. *)
Definition after_one_draw : state :=
  State {[ 7 := UserRow (Some "bee") "Bee Keeper" 0 (Some 1000) ]}
        [TemplateRow 1 "Страж-Обы-1" "Обычная" "Танк" 50]
        {[ (7, 1, "крылья", "Обычная") := 2 ]}
        [] 1 [] 1
        [SpinRow 7 1 "крылья" "Обычная" 2].

(** User 7 holds a complete set of template 1 at the most common rarity and
    another at the rarest one.  The UNIQUE key of [parts] allows such a
    table; no run of the handlers gives it, since a draw gives the parts of a
    template at the template's own rarity. *)
Definition two_rarity_sets : state :=
  State {[ 7 := UserRow (Some "bee") "Bee Keeper" 0 None ]}
        [TemplateRow 1 "Страж-Обы-1" "Обычная" "Танк" 50]
        (list_to_map
           [((7, 1, "крылья", "Обычная"), 1); ((7, 1, "тельце", "Обычная"), 1);
            ((7, 1, "жало", "Обычная"), 1); ((7, 1, "голова", "Обычная"), 1);
            ((7, 1, "крылья", "Дикая"), 2); ((7, 1, "тельце", "Дикая"), 1);
            ((7, 1, "жало", "Дикая"), 1); ((7, 1, "голова", "Дикая"), 1)])
        [] 1 [] 1 [].

(** User 7 owns bee 1; user 8 has 50 coins. *)
Definition with_bee : state :=
  State {[ 7 := UserRow (Some "bee") "Bee Keeper" 0 None;
           8 := UserRow None "Buyer" 50 None ]}
        [TemplateRow 1 "Страж-Обы-1" "Обычная" "Танк" 50]
        ∅
        [BeeRow 1 7 1 "Обычная" "Танк" 1 0] 2 [] 1 [].

(** ... and has listed it for 100 coins. *)
Definition with_listing : state := (sell_bee with_bee 7 1 100).1.

(** ** The catalog seed *)

(** [RARITY_COUNTS], in the order [.items()] walks it. *)
Definition RARITY_COUNTS : list (string * nat) :=
  [("Обычная", 35%nat); ("Сверхредкая", 25%nat); ("Эпическая", 15%nat);
   ("Легендарная", 15%nat); ("Мифическая", 9%nat); ("Дикая", 1%nat)].

Definition SAMPLE_NAMES : list string :=
  ["Пчелёнок"; "Страж"; "Бжур"; "Шершень"; "Златоброд"; "Бронеборт"; "Карабч";
   "Кип"; "Гроза"; "Чум"; "Рой"; "Светляч"; "Гром"; "Пробор"; "Клир";
   "Тенебрис"; "Велос"; "Шип"; "Флат"; "Рыжик"; "Скиталец"; "Глашатай"; "Арк";
   "Блиц"; "Силгар"; "Мирон"; "Оникс"; "Ривер"; "Стаз"; "Люм"; "Квент"; "Мерз";
   "Кард"; "Аур"; "Каин"; "Крон"; "Везер"; "Соль"; "Эйр"].

(** A byte of the form 10xxxxxx: not the first byte of a character. *)
Definition is_continuation (c : Ascii.ascii) : bool :=
  let n := Ascii.nat_of_ascii c in (128 <=? n)%nat && (n <? 192)%nat.

(** [s[:n]]: the first [n] characters of a string held as UTF-8 bytes. *)
Fixpoint take_chars (n : nat) (s : string) : string :=
  match s with
  | EmptyString => EmptyString
  | String c s' =>
      if is_continuation c then String c (take_chars n s')
      else match n with
           | O => EmptyString
           | S n' => String c (take_chars n' s')
           end
  end.

(** [for x in l: s = body(s, x)] *)
Fixpoint for_each {A S} (l : list A) (body : S → A → Rand S) (s : S) : Rand S :=
  match l with
  | [] => Ret s
  | x :: l' => s' <~ body s x ;; for_each l' body s'
  end.

(** One element of [items]: (name, rarity, role, desc, base_value). *)
Record seed_item := SeedItem {
  i_name : string;
  i_rarity : string;
  i_role : string;
  i_desc : string;
  i_base_value : Z
}.

(** The body of the inner loop of [ensure_bee_templates], for [i] of
    [range(count)]. *)
Definition seed_one (rarity : string) (items : list seed_item) (i : nat)
  : Rand (list seed_item) :=
  n <~ choice SAMPLE_NAMES ;;
  let name := n +:+ "-" +:+ take_chars 3 rarity +:+ "-" +:+ pretty (Z.of_nat i + 1) in
  role <~ choice ROLES ;;
  match RARITY_BASE_VALUE !! rarity with
  | None => Raise "KeyError"
  | Some base_value =>
      let desc := role +:+ " пчела ранга " +:+ rarity in
      Ret (items ++ [SeedItem name rarity role desc base_value])
  end.

(** The two loops of [ensure_bee_templates] that build [items]. *)
Definition seed_items : Rand (list seed_item) :=
  for_each RARITY_COUNTS
    (λ items rc, for_each (seq 0 rc.2) (seed_one rc.1) items) [].

(** The (rarity, i) pairs the loops walk, in order. *)
Definition seed_plan : list (string * nat) :=
  flat_map (λ rc : string * nat, map (λ i, (rc.1, i)) (seq 0 rc.2)) RARITY_COUNTS.

(** The guard of [ensure_bee_templates] on the number [row] of templates:
    [if row and row > 100: return]. *)
Definition catalog_present (row : Z) : bool := negb (row =? 0) && (100 <? row).

(** What the loops build for the pair (rarity, i). *)
Definition seeded (ri : string * nat) (it : seed_item) : Prop :=
  ∃ n role v,
    n ∈ SAMPLE_NAMES ∧ role ∈ ROLES ∧ RARITY_BASE_VALUE !! ri.1 = Some v ∧
    it = SeedItem (n +:+ "-" +:+ take_chars 3 ri.1 +:+ "-" +:+ pretty (Z.of_nat ri.2 + 1))
                  ri.1 role (role +:+ " пчела ранга " +:+ ri.1) v.

(** The result of a computation when every draw gives 0. *)
Fixpoint first_outcome {A} (m : Rand A) : option A :=
  match m with
  | Ret a => Some a
  | Raise _ => None
  | Below O _ => None
  | Below (S _) k => first_outcome (k O)
  end.

(** The items of the seed when every draw gives 0. *)
Definition sample_items : list seed_item := default [] (first_outcome seed_items).

(** The drawn template has the rarity [R]. *)
Definition rarity_is (R : string) (o : option template_row) : bool :=
  match o with
  | Some t => bool_decide (t_rarity t = R)
  | None => false
  end.

(** The user holds at least one of each part-kind of the template at the
    rarity. *)
Definition complete_set (st : state) (user_id template_id : Z) (rarity : string) : Prop :=
  ∀ pt, pt ∈ PART_TYPES → 1 ≤ stock st user_id template_id pt rarity.

(** A catalog that holds the items of [sample_items], numbered from 1. *)
Definition seeded_catalog : state :=
  State ∅
        (imap (λ i it, TemplateRow (Z.of_nat i + 1) (i_name it) (i_rarity it)
                                   (i_role it) (i_base_value it)) sample_items)
        ∅ [] 1 [] 1 [].

(** The first draw of [player] on [fresh], at time 1000, when every draw of
    the random source gives 0. *)
Definition first_draw : state * reply :=
  default (fresh, NoTemplate) (first_outcome (cmd_daily_spin fresh player 1000)).

(** The rarest set of [two_rarity_sets], assembled. *)
Definition assembled_wild : state * option Z :=
  default (two_rarity_sets, None)
          (first_outcome (try_assemble two_rarity_sets 7 1 "Дикая")).

(** [/assemble 1] by user 7 on [two_rarity_sets]. *)
Definition assembled_on_demand : state * reply :=
  default (two_rarity_sets, NotEnoughParts) (first_outcome (assemble two_rarity_sets 7 1)).

(** A computation that never raises: every branch ends in a result. *)
Inductive returns {A} : Rand A → Prop :=
| returns_ret a : returns (Ret a)
| returns_below n k : (0 < n)%nat → (∀ i, (i < n)%nat → returns (k i)) → returns (Below n k).

(** The range of an INTEGER column. *)
Definition int4 (z : Z) : Prop := -2147483648 ≤ z ≤ 2147483647.

(** The range of a BIGINT column. *)
Definition int8 (z : Z) : Prop := -9223372036854775808 ≤ z ≤ 9223372036854775807.

(** [template_id] is the id of a row of the catalog. *)
Definition in_catalog (st : state) (template_id : Z) : Prop :=
  ∃ tmpl, tmpl ∈ bee_templates st ∧ t_id tmpl = template_id.

(** What the store holds after any run of the handlers: the ids of the
    catalog are distinct (PRIMARY KEY), and every row of [parts] has a
    non-negative amount, the id of a catalog row and the rarity of that row
    (the only INSERT INTO parts, in [give_parts_to_user], is called by
    [cmd_daily_spin] with the id and the rarity of one catalog row). *)
Definition catalog_parts (st : state) : Prop :=
  NoDup (t_id <$> bee_templates st) ∧
  map_Forall (λ (k : part_key) a,
                0 ≤ a ∧
                Exists (λ tmpl, t_id tmpl = k.1.1.2 ∧ t_rarity tmpl = k.2)
                       (bee_templates st))
             (parts st).

(** The result of a computation when the random source gives [draws], in
    order. *)
Fixpoint outcome {A} (m : Rand A) (draws : list nat) : option A :=
  match m with
  | Ret a => Some a
  | Raise _ => None
  | Below n k =>
      match draws with
      | d :: ds => if (d <? n)%nat then outcome (k d) ds else None
      | [] => None
      end
  end.

(** One request to the bot, as a step of the store: [/start], [/daily_spin],
    [/assemble], [/sell_part], [/sell_bee] and the model of [/buy]. *)
Inductive step (st : state) : state → Prop :=
| step_start user : step st (ensure_user st user)
| step_daily_spin user now st' r :
    yields (cmd_daily_spin st user now) (st', r) → step st st'
| step_assemble u t st' r : yields (assemble st u t) (st', r) → step st st'
| step_sell_part u t pt n : step st (sell_part st u t pt n).1
| step_sell_bee u b price : step st (sell_bee st u b price).1
| step_buy u lid : step st (buy st u lid).1.

(** A store right after [create_tables] and the seed of the catalog: no parts
    yet, the SERIAL of [bees] at 1, the ids of the catalog distinct (PRIMARY
    KEY). *)
Definition initial (st : state) : Prop :=
  parts st = ∅ ∧ bees_id_seq st = 1 ∧ NoDup (t_id <$> bee_templates st).

(** The stores the requests lead to. *)
Inductive reachable : state → Prop :=
| reachable_initial st : initial st → reachable st
| reachable_step st st' : reachable st → step st st' → reachable st'.

(** [/daily_spin] by [player] at [now], the random source giving [draws]:
    the index of the template in the catalog, the index of the part-kind in
    [PART_TYPES], the roll of [draw_amount] and the index in its band. *)
Definition draw_with (st : state) (now : Z) (draws : list nat) : state * reply :=
  default (st, NoTemplate) (outcome (cmd_daily_spin st player now) draws).

(** Four draws of [player] on [fresh], a day apart, of two wings, two bodies,
    two stings and two heads of template 1.  The fourth completes a set, so
    the handler assembles bee 1; one part of each kind is left. *)
Definition four_draws : state :=
  (draw_with
     (draw_with
        (draw_with (draw_with fresh 1000 [0; 0; 0; 1]%nat).1
                   (1000 + hours24) [0; 1; 0; 1]%nat).1
        (1000 + 2 * hours24) [0; 2; 0; 1]%nat).1
     (1000 + 3 * hours24) [0; 3; 0; 1]%nat).1.


(** The complete set of [four_draws], assembled. *)
Definition four_draws_bee : state * option Z :=
  default (four_draws, None) (first_outcome (try_assemble four_draws 7 1 "Обычная")).

(** ** Identifiers *)

(** The ids of [bees] are below the next value of their sequence. *)
Definition bee_ids_fresh (st : state) : Prop :=
  Forall (λ b, b_id b < bees_id_seq st) (bees st).

(** The ids of [market_listings] are below the next value of their sequence. *)
Definition listing_ids_fresh (st : state) : Prop :=
  Forall (λ l, m_id l < market_listings_id_seq st) (market_listings st).

(** The user has no recorded draw less than 24 hours before [now]. *)
Definition may_draw (st : state) (user_id now : Z) : Prop :=
  ∀ u last, users st !! user_id = Some u → last_spin u = Some last →
            hours24 ≤ now - last.

(** The reply to a draw when the template [tmpl] comes up. *)
Definition is_spin_result (r : reply) : Prop :=
  match r with
  | SpinResult _ _ _ _ _ => True
  | _ => False
  end.

(** ** The quantity law of the draw *)

Lemma choice3_uniform (a b c : Z) :
  a ≠ b → a ≠ c → b ≠ c → uniform_over (choice [a; b; c]) [a; b; c].
Proof.
  intros Hab Hac Hbc v. cbn -[Qdiv Qplus bool_decide].
  destruct (decide (v = a)) as [->|Ha].
  { rewrite bool_decide_eq_true_2 by set_solver.
    rewrite Z.eqb_refl, (proj2 (Z.eqb_neq a b)), (proj2 (Z.eqb_neq a c)) by done.
    reflexivity. }
  destruct (decide (v = b)) as [->|Hb].
  { rewrite bool_decide_eq_true_2 by set_solver.
    rewrite Z.eqb_refl, (proj2 (Z.eqb_neq b a)), (proj2 (Z.eqb_neq b c)) by done.
    reflexivity. }
  destruct (decide (v = c)) as [->|Hc].
  { rewrite bool_decide_eq_true_2 by set_solver.
    rewrite Z.eqb_refl, (proj2 (Z.eqb_neq c a)), (proj2 (Z.eqb_neq c b)) by done.
    reflexivity. }
  rewrite bool_decide_eq_false_2 by set_solver.
  rewrite (proj2 (Z.eqb_neq v a)), (proj2 (Z.eqb_neq v b)), (proj2 (Z.eqb_neq v c)) by done.
  reflexivity.
Qed.

(** C8.  [draw_amount] rolls r = randbelow(100) + 1, a value of [1,100], and
    for every such roll: r ≤ 45 gives a quantity uniform over {1,2,3},
    45 < r ≤ 80 uniform over {4,5,6}, 80 < r ≤ 95 uniform over {7,8,9},
    and r > 95 gives exactly 10. *)
Theorem draw_amount_law :
  draw_amount = Below 100 (λ r0, draw_amount_roll (Z.of_nat r0 + 1)) ∧
  ∀ r : Z, 1 ≤ r ≤ 100 →
    (r ≤ 45 → uniform_over (draw_amount_roll r) [1; 2; 3]) ∧
    (45 < r ≤ 80 → uniform_over (draw_amount_roll r) [4; 5; 6]) ∧
    (80 < r ≤ 95 → uniform_over (draw_amount_roll r) [7; 8; 9]) ∧
    (95 < r → draw_amount_roll r = Ret 10).
Proof.
  split; [reflexivity|].
  intros r Hr. unfold draw_amount_roll.
  repeat split; intros H.
  - rewrite (proj2 (Z.leb_le r 45)) by lia. apply choice3_uniform; lia.
  - rewrite (proj2 (Z.leb_gt r 45)), (proj2 (Z.leb_le r (45 + 35))) by lia.
    apply choice3_uniform; lia.
  - rewrite (proj2 (Z.leb_gt r 45)), (proj2 (Z.leb_gt r (45 + 35))),
      (proj2 (Z.leb_le r (45 + 35 + 15))) by lia.
    apply choice3_uniform; lia.
  - rewrite (proj2 (Z.leb_gt r 45)), (proj2 (Z.leb_gt r (45 + 35))),
      (proj2 (Z.leb_gt r (45 + 35 + 15))) by lia.
    reflexivity.
Qed.

Lemma draw_amount_law_witness :
  uniform_over (draw_amount_roll 45) [1; 2; 3] ∧
  uniform_over (draw_amount_roll 80) [4; 5; 6] ∧
  uniform_over (draw_amount_roll 95) [7; 8; 9] ∧
  draw_amount_roll 96 = Ret 10.
Proof.
  split; [|split; [|split]].
  - apply (proj2 draw_amount_law 45); lia.
  - apply (proj2 draw_amount_law 80); lia.
  - apply (proj2 draw_amount_law 95); lia.
  - apply (proj2 draw_amount_law 96); lia.
Defined.

(** X2.  The four bands have the weights 45%, 35%, 15% and 5%. *)
Lemma draw_amount_bands :
  (prob draw_amount (λ q, (1 <=? q) && (q <=? 3)) == 45 # 100)%Q ∧
  (prob draw_amount (λ q, (4 <=? q) && (q <=? 6)) == 35 # 100)%Q ∧
  (prob draw_amount (λ q, (7 <=? q) && (q <=? 9)) == 15 # 100)%Q ∧
  (prob draw_amount (Z.eqb 10) == 5 # 100)%Q.
Proof. repeat split; vm_compute; reflexivity. Qed.

(** ** Assembly *)

Section parts_map.
Variables (user_id template_id : Z) (rarity : string).

Lemma dict_of_rows_fold (l : list (part_key * Z)) (acc : gmap string Z) (pt : string) :
  NoDup l.*1 →
  foldl (λ m row, <[row.1 := row.2]> m) acc (omap (part_amount_of_row user_id template_id rarity) l) !! pt =
    match (list_to_map l : gmap part_key Z) !! (user_id, template_id, pt, rarity) with
    | Some a => Some a
    | None => acc !! pt
    end.
Proof.
  revert acc. induction l as [|[[[[u t] pt'] r] a] l IH]; intros acc Hnd.
  { done. }
  apply NoDup_cons in Hnd as [Hnotin Hnd]. cbn [omap list_omap part_amount_of_row list_to_map foldr].
  destruct (decide ((u, t, pt', r) = (user_id, template_id, pt, rarity))) as [Heq|Hne].
  - injection Heq as -> -> -> ->.
    rewrite decide_True by done. cbn [foldl].
    rewrite IH by done. rewrite lookup_insert_eq.
    rewrite (not_elem_of_list_to_map_1 l) by done.
    cbn. by rewrite lookup_insert_eq.
  - rewrite lookup_insert_ne by done.
    destruct (decide (u = user_id ∧ t = template_id ∧ r = rarity)) as [(-> & -> & ->)|Hn].
    + cbn [foldl]. rewrite IH by done.
      destruct (_ !! _); [done|]. cbn.
      rewrite lookup_insert_ne; [done|congruence].
    + by rewrite IH.
Qed.

(** The dictionary built from the fetched rows reads the table. *)
Lemma parts_map_lookup (ps : gmap part_key Z) (pt : string) :
  dict_of_rows (select_part_amounts ps user_id template_id rarity) !! pt =
    ps !! (user_id, template_id, pt, rarity).
Proof.
  unfold dict_of_rows, select_part_amounts.
  rewrite (dict_of_rows_fold (map_to_list ps) ∅ pt) by apply NoDup_fst_map_to_list.
  rewrite list_to_map_to_list, lookup_empty. by destruct (_ !! _).
Qed.
End parts_map.

(** The four updates of the loop over [PART_TYPES]. *)
Lemma consume_all_lookup (u t : Z) (r : string) (ps : gmap part_key Z) (pt : string) :
  pt ∈ PART_TYPES →
  foldl (consume_one u t r) ps PART_TYPES !! (u, t, pt, r) =
    (λ a, a - 1) <$> ps !! (u, t, pt, r).
Proof.
  unfold PART_TYPES, consume_one. cbn [foldl]. intros Hpt.
  repeat (apply elem_of_cons in Hpt as [->|Hpt]);
    [| | | |by apply elem_of_nil in Hpt];
    repeat (first [rewrite lookup_alter_eq | rewrite lookup_alter_ne by (intros [=]; done)]);
    done.
Qed.

Lemma consume_all_lookup_other (u t : Z) (r : string) (ps : gmap part_key Z)
    (k : part_key) :
  (∀ pt, pt ∈ PART_TYPES → k ≠ (u, t, pt, r)) →
  foldl (consume_one u t r) ps PART_TYPES !! k = ps !! k.
Proof.
  unfold consume_one. intros Hk.
  assert (Hgen : ∀ l, l ⊆ PART_TYPES →
            foldl (λ ps0 pt, alter (λ a, a - 1) (u, t, pt, r) ps0) ps l !! k = ps !! k).
  { intros l. induction l as [|pt l IH] using rev_ind; [done|].
    intros Hl. rewrite foldl_app. cbn [foldl].
    rewrite lookup_alter_ne; [apply IH; set_solver|].
    intros <-. apply (Hk pt); [set_solver|done]. }
  by apply Hgen.
Qed.

Lemma yields_ret_inv {A} (a b : A) : yields (Ret a) b → b = a.
Proof. by inversion 1. Qed.

Lemma yields_bind {A B} (m : Rand A) (f : A → Rand B) (b : B) :
  yields (bind m f) b ↔ ∃ a, yields m a ∧ yields (f a) b.
Proof.
  split.
  - revert b. induction m as [a|e|n k IH]; cbn [bind]; intros b Hb.
    + exists a. split; [constructor|done].
    + inversion Hb.
    + inversion Hb as [|n' k' i b' Hi Hy]; subst.
      destruct (IH i b Hy) as (a & Ha & Hfa).
      exists a. split; [by econstructor|done].
  - intros (a & Ha & Hfa). induction Ha as [a|n k i a Hi Ha IH]; cbn [bind].
    + done.
    + econstructor; [done|]. by apply IH.
Qed.

Lemma yields_choice {A} (l : list A) (a : A) : yields (choice l) a ↔ a ∈ l.
Proof.
  destruct l as [|x l]; cbn [choice].
  { split; [inversion 1|intros H; by apply elem_of_nil in H]. }
  set (l' := x :: l). split.
  - inversion 1 as [|n k i a' Hi Hy]; subst.
    destruct (l' !! i) as [y|] eqn:Hl; [|inversion Hy].
    apply yields_ret_inv in Hy as ->. by eapply list_elem_of_lookup_2.
  - intros (i & Hi)%list_elem_of_lookup_1.
    apply (yields_below _ _ i); [by eapply lookup_lt_Some|].
    rewrite Hi. constructor.
Qed.

(** The test [all(parts_map.get(pt,0) >= 1 for pt in PART_TYPES)]. *)
Lemma all_parts_present (st : state) (u t : Z) (r : string) :
  forallb (λ pt, bool_decide
             (1 ≤ default 0 (dict_of_rows (select_part_amounts (parts st) u t r) !! pt)))
          PART_TYPES = true
  ↔ ∀ pt, pt ∈ PART_TYPES → 1 ≤ stock st u t pt r.
Proof.
  rewrite forallb_forall. unfold stock. split.
  - intros H pt Hpt. apply list_elem_of_In, H in Hpt.
    apply bool_decide_eq_true in Hpt. by rewrite parts_map_lookup in Hpt.
  - intros H pt Hpt. apply bool_decide_eq_true.
    rewrite parts_map_lookup. by apply H, list_elem_of_In.
Qed.

(** The two ways [try_assemble] ends. *)
Lemma try_assemble_yields (st : state) (u t : Z) (r : string) (st' : state)
    (res : option Z) :
  yields (try_assemble st u t r) (st', res) →
  (res = None ∧ st' = st ∧ ¬ (∀ pt, pt ∈ PART_TYPES → 1 ≤ stock st u t pt r)) ∨
  ((∀ pt, pt ∈ PART_TYPES → 1 ≤ stock st u t pt r) ∧
   ∃ role,
     res = Some (bees_id_seq st) ∧
     st' = State (users st) (bee_templates st)
                 (foldl (consume_one u t r) (parts st) PART_TYPES)
                 (bees st ++ [BeeRow (bees_id_seq st) u t r role 1 0])
                 (bees_id_seq st + 1)
                 (market_listings st) (market_listings_id_seq st) (spins_log st)).
Proof.
  unfold try_assemble.
  destruct (forallb _ PART_TYPES) eqn:Hall.
  - pose proof (proj1 (all_parts_present st u t r) Hall) as Hall'. intros Hy. right. split; [done|].
    apply yields_bind in Hy as (role & _ & Hy).
    cbn in Hy. apply yields_ret_inv in Hy. injection Hy as -> ->.
    by exists role.
  - intros Hy. apply yields_ret_inv in Hy. injection Hy as -> ->.
    left. repeat split. intros H. pose proof (proj2 (all_parts_present st u t r) H).
    congruence.
Qed.

Lemma try_assemble_total (st : state) (u t : Z) (r : string) :
  ∃ o, yields (try_assemble st u t r) o.
Proof.
  unfold try_assemble. destruct (forallb _ PART_TYPES).
  - destruct (select_role _ t) as [role|].
    + eexists. cbn. constructor.
    + eexists. apply yields_bind. exists "Танк". split.
      * apply yields_choice. set_solver.
      * cbn. constructor.
  - eexists. constructor.
Qed.

(** C1.  [try_assemble] always returns, and it returns a bee id exactly when
    the user's stock is at least 1 for each of the four part-kinds at the
    (template, rarity).  On success each of the four stocks goes down by
    exactly one, every other row of [parts] is unchanged, and exactly one bee
    is added, with level 1 and experience 0.  On failure the state, and so
    all stock, is unchanged. *)
Theorem try_assemble_spec (st : state) (u t : Z) (r : string) :
  PART_TYPES = ["крылья"; "тельце"; "жало"; "голова"] ∧
  (∃ o, yields (try_assemble st u t r) o) ∧
  ∀ st' res, yields (try_assemble st u t r) (st', res) →
    (is_Some res ↔ ∀ pt, pt ∈ PART_TYPES → 1 ≤ stock st u t pt r) ∧
    (is_Some res →
       (∀ pt, pt ∈ PART_TYPES → stock st' u t pt r = stock st u t pt r - 1) ∧
       (∀ k, (∀ pt, pt ∈ PART_TYPES → k ≠ (u, t, pt, r)) →
             parts st' !! k = parts st !! k) ∧
       ∃ id role,
         res = Some id ∧
         bees st' = bees st ++ [BeeRow id u t r role 1 0]) ∧
    (res = None → st' = st).
Proof.
  split; [done|]. split; [apply try_assemble_total|].
  intros st' res Hy.
  destruct (try_assemble_yields _ _ _ _ _ _ Hy)
    as [(-> & -> & Hno)|(Hall & role & -> & ->)].
  - split; [|split]; [|by intros [? [=]]|done].
    split; [by intros [? [=]]|done].
  - split; [|split]; [done| |done].
    intros _. split; [|split].
    + intros pt Hpt. unfold stock. cbn [parts].
      rewrite consume_all_lookup by done.
      specialize (Hall pt Hpt). unfold stock in Hall.
      destruct (parts st !! _); cbn in *; lia.
    + intros k Hk. cbn [parts]. by apply consume_all_lookup_other.
    + by exists (bees_id_seq st), role.
Qed.

(** ** The daily draw *)

Lemma yields_draw_amount (a : Z) : yields draw_amount a → 1 ≤ a ≤ 10.
Proof.
  intros (r0 & _ & Hy)%yields_bind. unfold draw_amount_roll in Hy.
  repeat case_match; try (apply yields_choice in Hy; set_solver by lia).
  apply yields_ret_inv in Hy. lia.
Qed.

Lemma draw_amount_total : ∃ a, yields draw_amount a.
Proof.
  exists 1. apply yields_bind. exists 0%nat. split.
  - apply (yields_below _ _ 0%nat); [lia|constructor].
  - apply yields_choice. set_solver.
Qed.

Lemma yields_pick_random_template (st : state) (o : option template_row) :
  yields (pick_random_template st) o →
  (o = None ∧ bee_templates st = []) ∨ (∃ t, o = Some t ∧ t ∈ bee_templates st).
Proof.
  unfold pick_random_template. destruct (bee_templates st) as [|t0 ts] eqn:Hts.
  - intros ->%yields_ret_inv. by left.
  - inversion 1 as [|n k i a Hi Hy]; subst. apply yields_ret_inv in Hy.
    destruct ((t0 :: ts) !! i) as [t|] eqn:Hi'.
    + right. exists t. split; [done|]. by eapply list_elem_of_lookup_2.
    + apply lookup_ge_None in Hi'. cbn in Hi'. lia.
Qed.

Lemma pick_random_template_total (st : state) :
  ∃ o, yields (pick_random_template st) o ∧ (o = None → bee_templates st = []).
Proof.
  unfold pick_random_template. destruct (bee_templates st) as [|t0 ts].
  - exists None. split; [constructor|done].
  - exists (Some t0). split; [|done].
    apply (yields_below _ _ 0%nat); [cbn; lia|constructor].
Qed.

Lemma ensure_user_lookup (st : state) (user : tg_user) (u : user_row) :
  users st !! tg_id user = Some u →
  users (ensure_user st user) !! tg_id user =
    Some (UserRow (py_or_none (tg_username user)) (nickname u) (coins u) (last_spin u)).
Proof. intros Hu. cbn. rewrite Hu. by rewrite lookup_insert_eq. Qed.

Lemma ensure_user_columns (st : state) (user : tg_user) (id : Z) (u : user_row) :
  users st !! id = Some u →
  ∃ u', users (ensure_user st user) !! id = Some u' ∧
        coins u' = coins u ∧ last_spin u' = last_spin u.
Proof.
  intros Hu. cbn. destruct (decide (id = tg_id user)) as [->|Hne].
  - rewrite Hu, lookup_insert_eq. by eexists.
  - destruct (users st !! tg_id user); rewrite lookup_insert_ne by done; by eexists.
Qed.

Lemma update_last_spin_lookup (id now : Z) (us : gmap Z user_row) (u : user_row) :
  us !! id = Some u → update_last_spin id now us !! id ≫= last_spin = Some now.
Proof. intros Hu. unfold update_last_spin. by rewrite lookup_alter_eq, Hu. Qed.

(** C3.  For a user whose last draw was strictly less than 24 hours before
    [now], the draw answers [CooldownActive] with the remaining time and
    changes neither the part stock nor any last-draw timestamp (nor coins,
    bees or the draw log).  At or beyond 24 hours the draw proceeds: it
    always returns, never with [CooldownActive]; it fails only when the
    catalog is empty, and otherwise logs a draw of 1 to 10 parts of a catalog
    template, adds them to the stock (of which an immediate assembly takes
    back at most one) and sets the last-draw timestamp to [now]. *)
Theorem daily_spin_cooldown (st : state) (user : tg_user) (now : Z)
    (u : user_row) (last : Z) :
  users st !! tg_id user = Some u →
  last_spin u = Some last →
  (now - last < hours24 →
     ∃ st',
       cmd_daily_spin st user now = Ret (st', CooldownActive (hours24 - (now - last))) ∧
       parts st' = parts st ∧
       (∀ id, (users st' !! id) ≫= last_spin = (users st !! id) ≫= last_spin) ∧
       (∀ id, coins <$> users st' !! id = coins <$> users st !! id) ∧
       bees st' = bees st ∧ spins_log st' = spins_log st) ∧
  (hours24 ≤ now - last →
     (∃ o, yields (cmd_daily_spin st user now) o) ∧
     ∀ st' r, yields (cmd_daily_spin st user now) (st', r) →
       (r = NoTemplate ∧ bee_templates st = []) ∨
       (∃ tmpl pt amount bee,
          tmpl ∈ bee_templates st ∧ pt ∈ PART_TYPES ∧ 1 ≤ amount ≤ 10 ∧
          r = SpinResult (t_name tmpl) (t_rarity tmpl) pt amount bee ∧
          spins_log st' =
            spins_log st ++ [SpinRow (tg_id user) (t_id tmpl) pt (t_rarity tmpl) amount] ∧
          stock st (tg_id user) (t_id tmpl) pt (t_rarity tmpl) + amount - 1
            ≤ stock st' (tg_id user) (t_id tmpl) pt (t_rarity tmpl)
            ≤ stock st (tg_id user) (t_id tmpl) pt (t_rarity tmpl) + amount ∧
          (users st' !! tg_id user) ≫= last_spin = Some now)).
Proof.
  intros Hu Hlast.
  pose proof (ensure_user_lookup st user u Hu) as Hu1.
  unfold cmd_daily_spin. rewrite Hu1. cbn [last_spin]. rewrite Hlast.
  split.
  - intros Hlt. rewrite (proj2 (Z.ltb_lt _ _) Hlt).
    eexists. split; [done|]. repeat split.
    + intros id. destruct (users st !! id) as [v|] eqn:Hv.
      * destruct (ensure_user_columns st user id v Hv) as (v' & -> & _ & Hl). done.
      * cbn. destruct (decide (id = tg_id user)) as [->|Hne]; [congruence|].
        destruct (users st !! tg_id user); rewrite lookup_insert_ne by done;
          by rewrite Hv.
    + intros id. destruct (users st !! id) as [v|] eqn:Hv.
      * destruct (ensure_user_columns st user id v Hv) as (v' & -> & Hc & _).
        cbn. by rewrite Hc.
      * cbn. destruct (decide (id = tg_id user)) as [->|Hne]; [congruence|].
        destruct (users st !! tg_id user); rewrite lookup_insert_ne by done;
          by rewrite Hv.
  - intros Hge. rewrite (proj2 (Z.ltb_ge _ _) Hge).
    set (st1 := ensure_user st user) in *.
    split.
    + destruct (pick_random_template_total st1) as ([tmpl|] & Hp & Hnone).
      * destruct draw_amount_total as (a & Ha).
        destruct (try_assemble_total
                    (set_users (update_last_spin (tg_id user) now)
                       (give_parts_to_user st1 (tg_id user) (t_id tmpl) "крылья"
                          (t_rarity tmpl) a))
                    (tg_id user) (t_id tmpl) (t_rarity tmpl)) as ([st2 bee] & Hy).
        eexists. apply yields_bind. exists (Some tmpl). split; [done|].
        apply yields_bind. exists "крылья". split; [apply yields_choice; set_solver|].
        apply yields_bind. exists a. split; [done|].
        apply yields_bind. eexists. split; [exact Hy|]. constructor.
      * eexists. apply yields_bind. exists None. split; [done|]. constructor.
    + intros st' r (o & Ho & Hy)%yields_bind.
      apply yields_pick_random_template in Ho as [(-> & Hnil)|(tmpl & -> & Hin)].
      { left. apply yields_ret_inv in Hy. by injection Hy as -> ->. }
      right.
      apply yields_bind in Hy as (pt & Hpt%yields_choice & Hy).
      apply yields_bind in Hy as (a & Ha%yields_draw_amount & Hy).
      apply yields_bind in Hy as ([st2 bee] & Hy & Hret).
      apply yields_ret_inv in Hret. injection Hret as -> ->.
      exists tmpl, pt, a, (if truthy bee then bee else None).
      split; [done|]. split; [done|]. split; [done|]. split; [done|].
      set (k := (tg_id user, t_id tmpl, pt, t_rarity tmpl)).
      assert (Hup : default 0 (upsert_parts k a (parts st) !! k) =
                    default 0 (parts st !! k) + a).
      { unfold upsert_parts. destruct (parts st !! k); by rewrite lookup_insert_eq. }
      apply try_assemble_yields in Hy
        as [(_ & -> & _)|(Hall & role & _ & ->)];
        unfold stock;
        cbn [spins_log users parts set_users give_parts_to_user ensure_user];
        subst st1; cbn [spins_log users parts set_users give_parts_to_user ensure_user];
        fold k.
      * split; [done|]. rewrite Hup.
        split; [lia|]. exact (update_last_spin_lookup _ _ _ _ Hu1).
      * split; [done|]. split.
        -- unfold k. rewrite consume_all_lookup by done. fold k.
           destruct (upsert_parts k a (parts st) !! k); cbn in *; lia.
        -- exact (update_last_spin_lookup _ _ _ _ Hu1).
Qed.

(** ** Sorting by a key *)

Section sort_by.
Context {A : Type} (key : A → Z).

Lemma insert_by_perm (x : A) (l : list A) : insert_by key x l ≡ₚ x :: l.
Proof.
  induction l as [|y l IH]; cbn [insert_by]; [done|].
  case_match; [done|]. rewrite IH. apply Permutation_swap.
Qed.

Lemma sort_by_perm (l : list A) : sort_by key l ≡ₚ l.
Proof.
  induction l as [|x l IH]; [done|].
  unfold sort_by in *. cbn [foldr]. by rewrite insert_by_perm, IH.
Qed.

Lemma head_insert_by (x : A) (l : list A) :
  head (insert_by key x l) =
    Some (match head l with
          | Some y => if key x <=? key y then x else y
          | None => x
          end).
Proof. destruct l as [|y l]; cbn; [done|]. by case_match. Qed.

(** The first row of [ORDER BY key]: a row of the list with the least key. *)
Lemma head_sort_by (l : list A) (x : A) :
  head (sort_by key l) = Some x → x ∈ l ∧ ∀ y, y ∈ l → key x ≤ key y.
Proof.
  revert x. induction l as [|a l IH]; intros x; [done|].
  unfold sort_by in *. cbn [foldr]. rewrite head_insert_by.
  destruct (head (foldr (insert_by key) [] l)) as [h|] eqn:Hh.
  - destruct (IH h eq_refl) as [Hin Hmin].
    destruct (Z.leb_spec (key a) (key h)); intros [= <-].
    + split; [set_solver|]. intros y [->|Hy]%elem_of_cons; [lia|].
      specialize (Hmin y Hy). lia.
    + split; [set_solver|]. intros y [->|Hy]%elem_of_cons; [lia|].
      by apply Hmin.
  - intros [= <-]. split; [set_solver|].
    assert (l = []) as ->.
    { apply Permutation_nil_r. rewrite <- (sort_by_perm l). unfold sort_by.
      by destruct (foldr (insert_by key) [] l). }
    intros y ->%list_elem_of_singleton. lia.
Qed.

Lemma head_sort_by_None (l : list A) : head (sort_by key l) = None → l = [].
Proof.
  intros H. apply Permutation_nil_r. rewrite <- (sort_by_perm l).
  by destruct (sort_by key l).
Qed.

Lemma insert_by_sorted (x : A) (l : list A) :
  Sorted (λ a b, key a ≤ key b) l → Sorted (λ a b, key a ≤ key b) (insert_by key x l).
Proof.
  induction 1 as [|y l Hl IH Hhd]; cbn [insert_by].
  { repeat constructor. }
  destruct (Z.leb_spec (key x) (key y)).
  - constructor; [by constructor|]. by constructor.
  - constructor; [done|].
    destruct l as [|z l]; cbn [insert_by] in *.
    + constructor. lia.
    + destruct (Z.leb_spec (key x) (key z)); constructor; [lia|].
      by inversion Hhd.
Qed.

(** [sort_by] is ascending in the key. *)
Lemma sort_by_sorted (l : list A) : Sorted (λ a b, key a ≤ key b) (sort_by key l).
Proof.
  induction l as [|x l IH]; [constructor|].
  unfold sort_by in *. cbn [foldr]. by apply insert_by_sorted.
Qed.
End sort_by.

(** ** Part sale *)

Lemma elem_of_select_amount_rarity (ps : gmap part_key Z) (u t : Z) (pt : string)
    (a : Z) (r : string) :
  (a, r) ∈ select_amount_rarity ps u t pt ↔ ps !! (u, t, pt, r) = Some a.
Proof.
  unfold select_amount_rarity. rewrite list_elem_of_omap. split.
  - intros ([[[[u' t'] pt'] r'] a'] & Hin & Hpick).
    apply elem_of_map_to_list in Hin.
    case_decide as Hk; [|done]. destruct Hk as (-> & -> & ->).
    by injection Hpick as -> ->.
  - intros Hl. exists ((u, t, pt, r), a). split; [by apply elem_of_map_to_list|].
    by rewrite decide_True.
Qed.

(** The row [ORDER BY amount DESC LIMIT 1] fetches. *)
Lemma select_top_amount_Some (ps : gmap part_key Z) (u t : Z) (pt : string)
    (a : Z) (r : string) :
  select_top_amount ps u t pt = Some (a, r) →
  ps !! (u, t, pt, r) = Some a ∧
  ∀ r' a', ps !! (u, t, pt, r') = Some a' → a' ≤ a.
Proof.
  intros [Hin Hmax]%head_sort_by. split.
  - by apply elem_of_select_amount_rarity.
  - intros r' a' Hl. apply elem_of_select_amount_rarity in Hl.
    specialize (Hmax _ Hl). cbn in Hmax. lia.
Qed.

Lemma select_top_amount_None (ps : gmap part_key Z) (u t : Z) (pt : string) :
  select_top_amount ps u t pt = None → ∀ r, ps !! (u, t, pt, r) = None.
Proof.
  intros Hnil%head_sort_by_None r.
  destruct (ps !! (u, t, pt, r)) as [a|] eqn:Hl; [|done].
  apply elem_of_select_amount_rarity in Hl. rewrite Hnil in Hl.
  by apply elem_of_nil in Hl.
Qed.

Lemma reduce_parts_lookup (n u t : Z) (pt : string) (ps : gmap part_key Z)
    (u' t' : Z) (pt' r' : string) :
  reduce_parts n u t pt ps !! (u', t', pt', r') =
    (λ a, if decide (u' = u ∧ t' = t ∧ pt' = pt ∧ n ≤ a) then a - n else a)
      <$> ps !! (u', t', pt', r').
Proof.
  unfold reduce_parts. rewrite map_lookup_imap.
  destruct (ps !! _) as [a|]; [|done]. cbn. by case_decide.
Qed.

Lemma update_coins_lookup (id amount : Z) (us : gmap Z user_row) (id' : Z) :
  coins <$> update_coins id amount us !! id' =
    (λ c, if decide (id' = id) then c + amount else c) <$> (coins <$> us !! id').
Proof.
  unfold update_coins. destruct (decide (id' = id)) as [->|Hne].
  - rewrite lookup_alter_eq. by destruct (us !! id).
  - rewrite lookup_alter_ne by done. by destruct (us !! id').
Qed.

(** C9.  A part sale of [n] units of a valid part-kind takes no rarity from
    the caller.  Either the user has no row for the (template, part-kind)
    and the sale fails with no state change, or the sale reads a row
    (rarity [r], amount [a]) with the highest amount among the user's rows
    of that (template, part-kind); if [a < n] the sale fails with no state
    change, and otherwise it answers for rarity [r] and adds to the user's
    coins the base value of [r] times [n]. *)
Theorem sell_part_spec (st : state) (u t : Z) (pt : string) (n : Z) :
  pt ∈ PART_TYPES →
  ((∀ r, parts st !! (u, t, pt, r) = None) ∧
   sell_part st u t pt n = (st, InsufficientStock))
  ∨
  (∃ r a,
     parts st !! (u, t, pt, r) = Some a ∧
     (∀ r' a', parts st !! (u, t, pt, r') = Some a' → a' ≤ a) ∧
     ((a < n ∧ sell_part st u t pt n = (st, InsufficientStock))
      ∨
      (n ≤ a ∧
       ∃ st',
         sell_part st u t pt n =
           (st', SoldParts n pt r (default 10 (RARITY_BASE_VALUE !! r) * n)) ∧
         (∀ id, coins <$> users st' !! id =
                  (λ c, if decide (id = u)
                        then c + default 10 (RARITY_BASE_VALUE !! r) * n else c)
                    <$> (coins <$> users st !! id))))).
Proof.
  intros Hpt. unfold sell_part. rewrite bool_decide_eq_true_2 by done.
  destruct (select_top_amount (parts st) u t pt) as [[a r]|] eqn:Htop.
  - right. exists r, a.
    destruct (select_top_amount_Some _ _ _ _ _ _ Htop) as [Hrow Hmax].
    split; [done|]. split; [done|].
    destruct (Z.ltb_spec a n); [by left|right].
    split; [done|]. eexists. split; [done|].
    intros id. cbn [users set_users set_parts]. apply update_coins_lookup.
  - left. split; [|done]. by apply select_top_amount_None.
Qed.

(** C10.  A successful part sale of [n] units takes [n] from every rarity
    row of the (user, template, part-kind) whose amount is at least [n], not
    only from the row that set the price; the rows with amount below [n],
    and every row of another user, template or part-kind, keep their amount;
    and coins are credited once: the seller gets the total of the answer,
    the base value of the answered rarity times [n]. *)
Theorem sell_part_reduces_every_rarity (st st' : state) (u t : Z) (pt : string)
    (n : Z) (r : string) (total : Z) :
  sell_part st u t pt n = (st', SoldParts n pt r total) →
  (∀ r' a, parts st !! (u, t, pt, r') = Some a →
           parts st' !! (u, t, pt, r') = Some (if decide (n ≤ a) then a - n else a)) ∧
  (∀ r', parts st !! (u, t, pt, r') = None → parts st' !! (u, t, pt, r') = None) ∧
  (∀ u' t' pt' r', (u', t', pt') ≠ (u, t, pt) →
                   parts st' !! (u', t', pt', r') = parts st !! (u', t', pt', r')) ∧
  total = default 10 (RARITY_BASE_VALUE !! r) * n ∧
  (∀ id, coins <$> users st' !! id =
           (λ c, if decide (id = u) then c + total else c) <$> (coins <$> users st !! id)).
Proof.
  unfold sell_part. case_bool_decide; [|done].
  destruct (select_top_amount (parts st) u t pt) as [[a0 r0]|]; [|done].
  destruct (Z.ltb_spec a0 n); [done|].
  intros [= <- <- <-]. cbn [parts users set_users set_parts].
  split; [|split; [|split; [|split]]].
  - intros r' a Hl. rewrite reduce_parts_lookup, Hl. cbn.
    destruct (decide (n ≤ a)).
    + by rewrite decide_True.
    + rewrite decide_False; [done|]. by intros (_ & _ & _ & ?).
  - intros r' Hl. by rewrite reduce_parts_lookup, Hl.
  - intros u' t' pt' r' Hne. rewrite reduce_parts_lookup.
    destruct (parts st !! _) as [a|]; [|done]. cbn.
    rewrite decide_False; [done|]. intros (-> & -> & -> & _). done.
  - done.
  - intros id. apply update_coins_lookup.
Qed.

(** ** On-demand assembly *)

Lemma rar_rank_table : map rar_rank RARITIES = [0; 1; 2; 3; 4; 5].
Proof. by vm_compute. Qed.

(** The loop of [/assemble] runs over the rarities in ascending position in
    [RARITIES]: the most common first. *)
Lemma assemble_order_ascending (ps : gmap part_key Z) (u t : Z) :
  Sorted (λ a b, rar_rank a ≤ rar_rank b) (assemble_order ps u t).
Proof. apply sort_by_sorted. Qed.

(** ** Non-negative balances and stock *)

Lemma price_per_pos (r : string) : 0 < price_per r.
Proof.
  unfold price_per.
  assert (Hall : map_Forall (λ _ v, 0 < v) RARITY_BASE_VALUE).
  { compute_done. }
  destruct (RARITY_BASE_VALUE !! r) as [v|] eqn:Hr; cbn; [|lia].
  by apply (map_Forall_lookup_1 _ _ _ _ Hall Hr).
Qed.

(** X28.  A part sale never makes a stock amount negative, whatever the sign of
    the requested amount. *)
Lemma sell_part_stock_nonneg (st : state) (u t : Z) (pt : string) (n : Z) :
  map_Forall (λ _ a, 0 ≤ a) (parts st) →
  map_Forall (λ _ a, 0 ≤ a) (parts (sell_part st u t pt n).1).
Proof.
  intros Hst. unfold sell_part.
  case_bool_decide; [|done].
  destruct (select_top_amount _ _ _ _) as [[a0 r0]|]; [|done].
  destruct (Z.ltb_spec a0 n); [done|].
  cbn [fst parts set_users set_parts].
  intros [[[u' t'] pt'] r'] a. rewrite reduce_parts_lookup.
  destruct (parts st !! _) as [a'|] eqn:Hl; [|done].
  specialize (Hst _ _ Hl). cbn in *. intros [= <-]. case_decide; lia.
Qed.

(** X29.  A part sale of a non-negative amount never makes a balance negative. *)
Lemma sell_part_coins_nonneg (st : state) (u t : Z) (pt : string) (n : Z) :
  0 ≤ n →
  map_Forall (λ _ v, 0 ≤ coins v) (users st) →
  map_Forall (λ _ v, 0 ≤ coins v) (users (sell_part st u t pt n).1).
Proof.
  intros Hn Hst. unfold sell_part.
  case_bool_decide; [|done].
  destruct (select_top_amount _ _ _ _) as [[a0 r0]|]; [|done].
  destruct (Z.ltb_spec a0 n); [done|].
  cbn [fst parts users set_users set_parts].
  intros id v Hv. pose proof (update_coins_lookup u (price_per r0 * n) (users st) id) as Hc.
  rewrite Hv in Hc. destruct (users st !! id) as [v0|] eqn:Hv0; [|done].
  specialize (Hst _ _ Hv0). cbn in *. injection Hc as ->.
  pose proof (price_per_pos r0). case_decide; nia.
Qed.

(** Assembly keeps balances and stock non-negative. *)
Lemma try_assemble_nonneg (st st' : state) (u t : Z) (r : string) (res : option Z) :
  yields (try_assemble st u t r) (st', res) → nonneg_state st → nonneg_state st'.
Proof.
  intros Hy [Hc Hp].
  apply try_assemble_yields in Hy as [(_ & -> & _)|(Hall & role & _ & ->)]; [done|].
  split; [done|]. cbn [parts].
  intros [[[u' t'] pt'] r'] a.
  destruct (decide (u' = u ∧ t' = t ∧ r' = r ∧ pt' ∈ PART_TYPES)) as [(-> & -> & -> & Hin)|Hn].
  - rewrite consume_all_lookup by done.
    specialize (Hall pt' Hin). unfold stock in Hall.
    destruct (parts st !! _) as [a'|]; cbn in *; [|done]. intros [= <-]. lia.
  - rewrite consume_all_lookup_other; [apply Hp|].
    intros pt0 Hpt0 [= -> -> -> ->]. by apply Hn.
Qed.

(** C4.  A part sale of a negative amount breaks the invariant.  After a
    first draw of two wings every balance and every stock amount is
    non-negative; selling -1 wings is accepted (the stock row is not below
    -1), the stock grows to 3 and the balance is credited 50 * -1 coins: it
    becomes -50. *)
Theorem sell_part_negative_amount_breaks_balance :
  yields (cmd_daily_spin fresh player 1000)
         (after_one_draw, SpinResult "Страж-Обы-1" "Обычная" "крылья" 2 None) ∧
  nonneg_state after_one_draw ∧
  ∃ st',
    sell_part after_one_draw 7 1 "крылья" (-1) =
      (st', SoldParts (-1) "крылья" "Обычная" (-50)) ∧
    coins <$> users st' !! 7 = Some (-50) ∧
    stock st' 7 1 "крылья" "Обычная" = 3 ∧
    ¬ nonneg_state st'.
Proof.
  split; [|split].
  - unfold cmd_daily_spin.
    apply yields_bind. exists (Some (TemplateRow 1 "Страж-Обы-1" "Обычная" "Танк" 50)).
    split; [apply (yields_below _ _ 0%nat); [cbn; lia|constructor]|].
    apply yields_bind. exists "крылья". split; [apply yields_choice; set_solver|].
    apply yields_bind. exists 2. split.
    { apply yields_bind. exists 0%nat. split.
      - apply (yields_below _ _ 0%nat); [lia|constructor].
      - apply yields_choice. set_solver. }
    apply yields_bind. eexists. split; [by vm_compute; constructor|].
    vm_compute. constructor.
  - split; compute_done.
  - eexists. split; [by vm_compute|]. split; [by vm_compute|]. split; [by vm_compute|].
    intros [Hc _].
    assert (Hl : users (sell_part after_one_draw 7 1 "крылья" (-1)).1 !! 7 =
                 Some (UserRow (Some "bee") "Bee Keeper" (-50) (Some 1000)))
      by (by vm_compute).
    specialize (Hc _ _ Hl). cbn in Hc. lia.
Qed.

(** ** The market *)

Lemma select_own_bee_Some (st : state) (u b : Z) :
  owns st u b → select_own_bee st b u = Some b.
Proof.
  intros (bee & Hin & Hid & Hu). unfold select_own_bee.
  destruct (list_find_elem_of (λ b0, b_id b0 = b ∧ b_user_id b0 = u) (bees st) bee)
    as [[i bee'] Hfind]; [done..|].
  rewrite Hfind. cbn. apply list_find_Some in Hfind as (_ & [Hid' _] & _).
  by rewrite Hid'.
Qed.

Lemma select_own_bee_None (st : state) (u b : Z) :
  ¬ owns st u b → select_own_bee st b u = None.
Proof.
  intros Hno. unfold select_own_bee.
  destruct (list_find _ (bees st)) as [[i bee]|] eqn:Hfind; [|done].
  apply list_find_Some in Hfind as (Hl & [Hid Hu] & _).
  destruct Hno. exists bee. split; [by eapply list_elem_of_lookup_2|done].
Qed.

(** What [/sell_bee] does for the owner of the bee, whatever the price and
    whatever the listings. *)
Lemma sell_bee_owner (st : state) (u b price : Z) :
  owns st u b →
  sell_bee st u b price = (insert_listing st u b price, Listed b price).
Proof. intros Ho. unfold sell_bee. by rewrite (select_own_bee_Some _ _ _ Ho). Qed.

Lemma sell_bee_not_owner (st : state) (u b price : Z) :
  ¬ owns st u b → sell_bee st u b price = (st, NotOwner).
Proof. intros Ho. unfold sell_bee. by rewrite (select_own_bee_None _ _ _ Ho). Qed.

(** C5, as the specification states it, fails: the owner of bee 1 lists it
    for 0 coins and for -5 coins, and each call creates a listing. *)
Lemma sell_bee_accepts_nonpositive_price :
  sell_bee with_bee 7 1 0 =
    (insert_listing with_bee 7 1 0, Listed 1 0) ∧
  market_listings (sell_bee with_bee 7 1 0).1 = [ListingRow 1 7 1 0] ∧
  market_listings (sell_bee with_bee 7 1 (-5)).1 = [ListingRow 1 7 1 (-5)] ∧
  ¬ (∀ st u b price, price ≤ 0 →
       market_listings (sell_bee st u b price).1 = market_listings st).
Proof.
  repeat (split; [by vm_compute|]).
  intros H. specialize (H with_bee 7 1 0 ltac:(lia)). vm_compute in H. discriminate.
Qed.

(** C5, amended.  [/sell_bee] does not look at the price: for every price,
    positive or not, the owner of the bee gets exactly one new listing with
    that price, and a caller who does not own the bee gets [NotOwner] and no
    listing. *)
Theorem sell_bee_price_unchecked (st : state) (u b price : Z) :
  (owns st u b →
     ∃ st',
       sell_bee st u b price = (st', Listed b price) ∧
       market_listings st' =
         market_listings st ++ [ListingRow (market_listings_id_seq st) u b price]) ∧
  (¬ owns st u b → sell_bee st u b price = (st, NotOwner)).
Proof.
  split.
  - intros Ho. eexists. split; [by apply sell_bee_owner|done].
  - apply sell_bee_not_owner.
Qed.

Lemma owns_with_bee : owns with_bee 7 1.
Proof. eexists. split; [apply list_elem_of_here|]. by split. Defined.

Lemma not_owns_with_bee : ¬ owns with_bee 8 1.
Proof.
  intros (bee & Hin & _ & Hu).
  apply list_elem_of_singleton in Hin. subst bee. discriminate Hu.
Defined.

Lemma sell_bee_price_unchecked_witness :
  (∃ st',
     sell_bee with_bee 7 1 (-5) = (st', Listed 1 (-5)) ∧
     market_listings st' =
       market_listings with_bee ++ [ListingRow (market_listings_id_seq with_bee) 7 1 (-5)]) ∧
  sell_bee with_bee 8 1 (-5) = (with_bee, NotOwner).
Proof.
  split.
  - exact (proj1 (sell_bee_price_unchecked with_bee 7 1 (-5)) owns_with_bee).
  - exact (proj2 (sell_bee_price_unchecked with_bee 8 1 (-5)) not_owns_with_bee).
Defined.

(** C6, as the specification states it, fails: bee 1 is listed for 100
    coins, its owner lists it again for 70, and the market then holds two
    listings of the bee. *)
Lemma sell_bee_lists_a_listed_bee_again :
  listings_of with_listing 1 = [ListingRow 1 7 1 100] ∧
  (sell_bee with_listing 7 1 70).2 = Listed 1 70 ∧
  listings_of (sell_bee with_listing 7 1 70).1 1 =
    [ListingRow 1 7 1 100; ListingRow 2 7 1 70] ∧
  ¬ (∀ st u b price, listings_of st b ≠ [] →
       market_listings (sell_bee st u b price).1 = market_listings st).
Proof.
  repeat (split; [by vm_compute|]).
  intros H. specialize (H with_listing 7 1 70 ltac:(by vm_compute)).
  vm_compute in H. discriminate.
Qed.

(** C6, amended.  A bee can have any number of listings: when the owner
    lists a bee that already has a listing, the call succeeds, the earlier
    listings stay and one more listing of the bee is added. *)
Theorem sell_bee_already_listed (st : state) (u b price : Z) :
  owns st u b →
  listings_of st b ≠ [] →
  ∃ st',
    sell_bee st u b price = (st', Listed b price) ∧
    listings_of st' b =
      listings_of st b ++ [ListingRow (market_listings_id_seq st) u b price] ∧
    (2 ≤ length (listings_of st' b))%nat.
Proof.
  intros Ho Hl. eexists. split; [by apply sell_bee_owner|].
  assert (Heq : listings_of (insert_listing st u b price) b =
                listings_of st b ++ [ListingRow (market_listings_id_seq st) u b price]).
  { unfold listings_of, insert_listing. cbn [market_listings].
    rewrite filter_app. f_equal. cbn. by rewrite decide_True. }
  split; [done|]. rewrite Heq, length_app. cbn.
  destruct (listings_of st b); [done|]. cbn. lia.
Qed.

Lemma owns_with_listing : owns with_listing 7 1.
Proof. eexists. split; [apply list_elem_of_here|]. by split. Defined.

Lemma sell_bee_already_listed_witness :
  ∃ st',
    sell_bee with_listing 7 1 70 = (st', Listed 1 70) ∧
    listings_of st' 1 =
      listings_of with_listing 1 ++ [ListingRow (market_listings_id_seq with_listing) 7 1 70] ∧
    (2 ≤ length (listings_of st' 1))%nat.
Proof.
  apply (sell_bee_already_listed with_listing 7 1 70 owns_with_listing).
  vm_compute. discriminate.
Defined.

(** C7.  When the listing exists and the buyer's balance is below its price,
    [buy] answers [InsufficientFunds] and the state is the one before: the
    listing is still there, the bees have their owners and no balance has
    changed. *)
Theorem buy_insufficient_funds (st : state) (buyer lid : Z) (l : listing_row)
    (b : user_row) :
  select_listing st lid = Some l →
  users st !! buyer = Some b →
  coins b < m_price l →
  buy st buyer lid = (st, InsufficientFunds) ∧
  select_listing (buy st buyer lid).1 lid = Some l ∧
  bees (buy st buyer lid).1 = bees st ∧
  users (buy st buyer lid).1 = users st.
Proof.
  intros Hl Hb Hlt.
  assert (Hbuy : buy st buyer lid = (st, InsufficientFunds)).
  { unfold buy, settle_purchase. rewrite Hl, Hb.
    by rewrite (proj2 (Z.ltb_lt _ _) Hlt). }
  by rewrite Hbuy.
Qed.

Lemma buy_insufficient_funds_witness :
  buy with_listing 8 1 = (with_listing, InsufficientFunds) ∧
  select_listing (buy with_listing 8 1).1 1 = Some (ListingRow 1 7 1 100) ∧
  bees (buy with_listing 8 1).1 = bees with_listing ∧
  users (buy with_listing 8 1).1 = users with_listing.
Proof.
  apply (buy_insufficient_funds with_listing 8 1 (ListingRow 1 7 1 100)
           (UserRow None "Buyer" 50 None)).
  - by vm_compute.
  - by vm_compute.
  - cbn. lia.
Defined.

(** ** The theorems at the states of the examples *)

Lemma try_assemble_spec_witness :
  ∃ st' id role,
    yields (try_assemble two_rarity_sets 7 1 "Дикая") (st', Some id) ∧
    (∀ pt, pt ∈ PART_TYPES →
           stock st' 7 1 pt "Дикая" = stock two_rarity_sets 7 1 pt "Дикая" - 1) ∧
    bees st' = bees two_rarity_sets ++ [BeeRow id 7 1 "Дикая" role 1 0].
Proof.
  set (st' := match try_assemble two_rarity_sets 7 1 "Дикая" with
              | Ret o => o.1
              | _ => two_rarity_sets
              end).
  assert (Hy : yields (try_assemble two_rarity_sets 7 1 "Дикая") (st', Some 1)).
  { vm_compute. constructor. }
  destruct (proj2 (proj2 (try_assemble_spec two_rarity_sets 7 1 "Дикая")) st' (Some 1) Hy)
    as (_ & Hsome & _).
  destruct (Hsome (ex_intro _ 1 eq_refl)) as (Hstock & _ & id & role & Hid & Hbees).
  exists st', id, role. split; [by rewrite <- Hid|]. by split.
Defined.

Lemma daily_spin_cooldown_witness :
  (∃ st',
     cmd_daily_spin after_one_draw player 2000 =
       Ret (st', CooldownActive (hours24 - (2000 - 1000))) ∧
     parts st' = parts after_one_draw) ∧
  (∃ o, yields (cmd_daily_spin after_one_draw player (1000 + hours24)) o).
Proof.
  set (u := UserRow (Some "bee") "Bee Keeper" 0 (Some 1000)).
  split.
  - destruct (proj1 (daily_spin_cooldown after_one_draw player 2000 u 1000
                       eq_refl eq_refl)) as (st' & Hr & Hp & _).
    { vm_compute. reflexivity. }
    by exists st'.
  - apply (proj2 (daily_spin_cooldown after_one_draw player (1000 + hours24) u 1000
                    eq_refl eq_refl)).
    vm_compute. discriminate.
Defined.

Lemma wings_in_PART_TYPES : "крылья" ∈ PART_TYPES.
Proof. apply list_elem_of_here. Defined.

Lemma sell_part_spec_witness :
  (∀ r, parts two_rarity_sets !! (7, 1, "крылья", r) = None) ∧
  sell_part two_rarity_sets 7 1 "крылья" 1 = (two_rarity_sets, InsufficientStock)
  ∨
  (∃ r a,
     parts two_rarity_sets !! (7, 1, "крылья", r) = Some a ∧
     (∀ r' a', parts two_rarity_sets !! (7, 1, "крылья", r') = Some a' → a' ≤ a) ∧
     ((a < 1 ∧
       sell_part two_rarity_sets 7 1 "крылья" 1 = (two_rarity_sets, InsufficientStock))
      ∨
      (1 ≤ a ∧
       ∃ st',
         sell_part two_rarity_sets 7 1 "крылья" 1 =
           (st', SoldParts 1 "крылья" r (default 10 (RARITY_BASE_VALUE !! r) * 1)) ∧
         (∀ id, coins <$> users st' !! id =
                  (λ c, if decide (id = 7)
                        then c + default 10 (RARITY_BASE_VALUE !! r) * 1 else c)
                    <$> (coins <$> users two_rarity_sets !! id))))).
Proof. exact (sell_part_spec two_rarity_sets 7 1 "крылья" 1 wings_in_PART_TYPES). Defined.

(** One wing sold with two wings at "Дикая" and one at "Обычная": both rows
    lose one, and the 50000 coins of "Дикая" are credited once. *)
Lemma sell_part_reduces_every_rarity_witness :
  ∃ st',
    sell_part two_rarity_sets 7 1 "крылья" 1 = (st', SoldParts 1 "крылья" "Дикая" 50000) ∧
    stock st' 7 1 "крылья" "Дикая" = 1 ∧
    stock st' 7 1 "крылья" "Обычная" = 0 ∧
    coins <$> users st' !! 7 = Some 50000.
Proof.
  set (st' := (sell_part two_rarity_sets 7 1 "крылья" 1).1).
  assert (Hs : sell_part two_rarity_sets 7 1 "крылья" 1 =
               (st', SoldParts 1 "крылья" "Дикая" 50000)).
  { vm_compute. reflexivity. }
  destruct (sell_part_reduces_every_rarity two_rarity_sets st' 7 1 "крылья" 1 "Дикая"
              50000 Hs) as (Hrows & _ & _ & _ & Hcoins).
  exists st'. split; [exact Hs|]. unfold stock.
  rewrite (Hrows "Дикая" 2), (Hrows "Обычная" 1), (Hcoins 7);
    [|vm_compute; reflexivity..].
  repeat split.
Defined.


(** * Further properties of the code *)

(** ** The quantity of a draw *)

(** X1.  [draw_amount] returns a quantity from 1 to 10, and every one of these
    ten quantities can come up. *)
Theorem draw_amount_support (a : Z) : yields draw_amount a ↔ 1 ≤ a ≤ 10.
Proof.
  split; [apply yields_draw_amount|].
  intros Ha.
  assert (Hroll : ∀ r0 : nat, (r0 < 100)%nat →
            yields (draw_amount_roll (Z.of_nat r0 + 1)) a → yields draw_amount a).
  { intros r0 Hr0 Hy. apply yields_bind. exists r0. split; [|done].
    by apply (yields_below _ _ r0); [|constructor]. }
  destruct (decide (a ≤ 3)); [|destruct (decide (a ≤ 6)); [|destruct (decide (a ≤ 9))]].
  - apply (Hroll 0%nat); [lia|]. apply yields_choice. set_solver by lia.
  - apply (Hroll 45%nat); [lia|]. apply yields_choice.
    assert (a = 4 ∨ a = 5 ∨ a = 6) as [->| [->| ->]] by lia; set_solver.
  - apply (Hroll 80%nat); [lia|]. apply yields_choice.
    assert (a = 7 ∨ a = 8 ∨ a = 9) as [->| [->| ->]] by lia; set_solver.
  - apply (Hroll 99%nat); [lia|]. assert (a = 10) as -> by lia. constructor.
Qed.

(** X3.  Each of the quantities 1 to 9 has probability 45/300, 35/300 or 15/300
    by its band, 10 has probability 5/100, and these add up to 1: the draw
    never raises. *)
Theorem draw_amount_distribution :
  map (λ a, Qred (prob draw_amount (Z.eqb a))) [1; 2; 3; 4; 5; 6; 7; 8; 9; 10] =
    [3 # 20; 3 # 20; 3 # 20; 7 # 60; 7 # 60; 7 # 60; 1 # 20; 1 # 20; 1 # 20; 1 # 20]%Q ∧
  (prob draw_amount (λ _, true) == 1)%Q.
Proof. split; [by vm_compute|]. by vm_compute. Qed.

(** ** The template of a draw *)

Lemma Qsum_indicator {A} (P : A → bool) (l : list A) :
  (Qsum (map (λ x, if P x then 1 else 0) l) ==
     inject_Z (Z.of_nat (length (filter (λ x, P x) l))))%Q.
Proof.
  induction l as [|x l IH]; [reflexivity|].
  cbn [map Qsum foldr]. fold (Qsum (map (λ x, if P x then 1 else 0)%Q l)).
  rewrite IH, filter_cons. destruct (P x) eqn:HP.
  - case_decide as Ht; [|by destruct Ht]. cbn [length].
    rewrite Nat2Z.inj_succ, <- Z.add_1_l, inject_Z_plus. reflexivity.
  - case_decide as Ht; [by destruct Ht|]. apply Qplus_0_l.
Qed.

Lemma map_lookup_seq {A B} (f : option A → B) (l : list A) :
  map (λ i, f (l !! i)) (seq 0 (length l)) = map (λ x, f (Some x)) l.
Proof.
  apply list_eq. intros i.
  rewrite !list_lookup_fmap.
  destruct (decide (i < length l)%nat) as [Hi|Hi].
  - rewrite lookup_seq_lt by done. cbn.
    destruct (lookup_lt_is_Some_2 l i Hi) as [x Hx]. by rewrite Hx.
  - rewrite lookup_seq_ge by lia. by rewrite lookup_ge_None_2 by lia.
Qed.

Lemma prob_pick_random_template (st : state) (P : option template_row → bool) :
  bee_templates st ≠ [] →
  (prob (pick_random_template st) P ==
     inject_Z (Z.of_nat (length (filter (λ t, P (Some t)) (bee_templates st))))
     / inject_Z (Z.of_nat (length (bee_templates st))))%Q.
Proof.
  intros Hne. unfold pick_random_template.
  destruct (bee_templates st) as [|t0 ts] eqn:Hts; [done|].
  cbn [prob].
  rewrite (map_lookup_seq (λ o, if P o then 1%Q else 0%Q) (t0 :: ts)).
  rewrite (Qsum_indicator (λ t, P (Some t))). reflexivity.
Qed.

(** X4.  [pick_random_template] is uniform over the rows of the catalog: an
    event has the probability (rows with the event) / (all rows).  So the
    chance of a rarity is its share of the catalog. *)
Theorem pick_random_template_uniform (st : state) (P : option template_row → bool) :
  bee_templates st ≠ [] →
  (prob (pick_random_template st) P ==
     inject_Z (Z.of_nat (length (filter (λ t, P (Some t)) (bee_templates st))))
     / inject_Z (Z.of_nat (length (bee_templates st))))%Q.
Proof. apply prob_pick_random_template. Qed.

Lemma pick_random_template_uniform_witness :
  (prob (pick_random_template fresh)
        (λ o, bool_decide (t_rarity <$> o = Some "Обычная")) ==
     inject_Z (Z.of_nat (length (filter
        (λ t, bool_decide (t_rarity <$> Some t = Some "Обычная")) (bee_templates fresh))))
     / inject_Z (Z.of_nat (length (bee_templates fresh))))%Q.
Proof.
  apply (pick_random_template_uniform fresh
           (λ o, bool_decide (t_rarity <$> o = Some "Обычная"))).
  discriminate.
Defined.

(** With an empty catalog [pick_random_template] returns nothing. *)
Lemma pick_random_template_empty (st : state) :
  bee_templates st = [] → pick_random_template st = Ret None.
Proof. intros H. unfold pick_random_template. by rewrite H. Qed.

(** ** The catalog seed *)

Lemma first_outcome_yields {A} (m : Rand A) (a : A) :
  first_outcome m = Some a → yields m a.
Proof.
  induction m as [b|e|n k IH]; cbn [first_outcome].
  - intros [= ->]. constructor.
  - done.
  - destruct n as [|n]; [done|]. intros H.
    apply (yields_below _ _ 0%nat); [lia|]. by apply IH.
Qed.

(** A loop keeps what its body keeps. *)
Lemma yields_for_each {A S} (P : list A → S → Prop) (body : S → A → Rand S)
    (l : list A) (s0 s : S) :
  P [] s0 →
  (∀ pre x s1 s2, P pre s1 → yields (body s1 x) s2 → P (pre ++ [x]) s2) →
  yields (for_each l body s0) s → P l s.
Proof.
  intros H0 Hstep.
  assert (Hgen : ∀ l pre s1, P pre s1 → yields (for_each l body s1) s → P (pre ++ l) s).
  { clear l H0. intros l. induction l as [|x l IH]; intros pre s1 Hpre Hy; cbn [for_each] in Hy.
    - apply yields_ret_inv in Hy as ->. by rewrite app_nil_r.
    - apply yields_bind in Hy as (s2 & Hb & Hy).
      rewrite (cons_middle x pre l), app_assoc. eapply IH; [|done]. by eapply Hstep. }
  apply (Hgen l [] s0); done.
Qed.

Lemma yields_seed_one (rarity : string) (items items' : list seed_item) (i : nat) :
  yields (seed_one rarity items i) items' →
  ∃ it, items' = items ++ [it] ∧ seeded (rarity, i) it.
Proof.
  unfold seed_one. intros (n & Hn%yields_choice & Hy)%yields_bind.
  apply yields_bind in Hy as (role & Hrole%yields_choice & Hy).
  destruct (RARITY_BASE_VALUE !! rarity) as [v|] eqn:Hv; [|inversion Hy].
  apply yields_ret_inv in Hy as ->. eexists. split; [done|].
  by exists n, role, v.
Qed.

Lemma yields_seed_rarity (rarity : string) (count : nat)
    (items items' : list seed_item) :
  yields (for_each (seq 0 count) (seed_one rarity) items) items' →
  ∃ rows, items' = items ++ rows ∧
          Forall2 seeded (map (λ i, (rarity, i)) (seq 0 count)) rows.
Proof.
  apply (yields_for_each
           (λ pre s, ∃ rows, s = items ++ rows ∧
                             Forall2 seeded (map (λ i, (rarity, i)) pre) rows)).
  - exists []. split; [by rewrite app_nil_r|constructor].
  - intros pre x s1 s2 (rows & -> & Hrows) (it & -> & Hit)%yields_seed_one.
    exists (rows ++ [it]). split; [by rewrite app_assoc|].
    rewrite map_app. apply Forall2_app; [done|]. by repeat constructor.
Qed.

Lemma yields_seed_items (items : list seed_item) :
  yields seed_items items → Forall2 seeded seed_plan items.
Proof.
  unfold seed_items, seed_plan.
  apply (yields_for_each
           (λ pre s, Forall2 seeded
                       (flat_map (λ rc : string * nat,
                                    map (λ i, (rc.1, i)) (seq 0 rc.2)) pre) s)).
  - constructor.
  - intros pre rc s1 s2 Hpre (rows & -> & Hrows)%yields_seed_rarity.
    rewrite flat_map_app. apply Forall2_app; [done|].
    cbn [flat_map]. by rewrite app_nil_r.
Qed.

Lemma sample_items_yields : yields seed_items sample_items.
Proof. apply first_outcome_yields. by vm_compute. Defined.

Lemma seeded_rarities (plan : list (string * nat)) (items : list seed_item) :
  Forall2 seeded plan items → map i_rarity items = map fst plan.
Proof.
  induction 1 as [|ri it plan items Hit _ IH]; [done|].
  cbn [map]. rewrite IH. f_equal.
  by destruct Hit as (n & role & v & _ & _ & _ & ->).
Qed.

Lemma seed_items_rarities (items : list seed_item) :
  yields seed_items items →
  map i_rarity items =
    flat_map (λ rc : string * nat, replicate rc.2 rc.1) RARITY_COUNTS.
Proof.
  intros Hplan%yields_seed_items.
  rewrite (seeded_rarities _ _ Hplan). by vm_compute.
Qed.

(** X5.  Every run of the loops of [ensure_bee_templates] builds the same 100
    places: 35, 25, 15, 15, 9 and 1 items of the six rarities in the order of
    [RARITY_COUNTS], numbered from 1 within a rarity.  Each item has a name
    of [SAMPLE_NAMES] followed by the first three characters of the rarity
    and its number, a role of [ROLES] and the base value of its rarity. *)
Theorem seed_items_spec (items : list seed_item) :
  yields seed_items items →
  Forall2 seeded seed_plan items ∧
  length items = 100%nat ∧
  map i_rarity items =
    flat_map (λ rc : string * nat, replicate rc.2 rc.1) RARITY_COUNTS ∧
  Forall (λ it, i_base_value it = price_per (i_rarity it)) items.
Proof.
  intros Hplan%yields_seed_items.
  split; [done|]. split; [|split].
  - rewrite <- (Forall2_length _ _ _ Hplan). by vm_compute.
  - rewrite (seeded_rarities _ _ Hplan). by vm_compute.
  - clear -Hplan. induction Hplan as [|ri it plan items Hit _ IH]; constructor; [|done].
    destruct Hit as (n & role & v & _ & _ & Hv & ->). cbn.
    unfold price_per. by rewrite Hv.
Qed.

Lemma seed_items_spec_witness :
  Forall2 seeded seed_plan sample_items ∧
  length sample_items = 100%nat ∧
  map i_rarity sample_items =
    flat_map (λ rc : string * nat, replicate rc.2 rc.1) RARITY_COUNTS ∧
  Forall (λ it, i_base_value it = price_per (i_rarity it)) sample_items.
Proof. exact (seed_items_spec sample_items sample_items_yields). Defined.

(** X6.  The seed is never recognised as present: the loops build 100 items and
    the guard [row > 100] of [ensure_bee_templates] needs more than 100
    templates to skip the seeding. *)
Theorem seed_items_below_guard (items : list seed_item) :
  yields seed_items items →
  catalog_present (Z.of_nat (length items)) = false.
Proof.
  intros Hplan%yields_seed_items.
  rewrite <- (Forall2_length _ _ _ Hplan). by vm_compute.
Qed.

Lemma seed_items_below_guard_witness :
  catalog_present (Z.of_nat (length sample_items)) = false.
Proof. exact (seed_items_below_guard sample_items sample_items_yields). Defined.

Lemma count_rarity (R : string) (ts : list template_row) :
  length (filter (λ t, rarity_is R (Some t)) ts) =
    length (filter (λ r, r = R) (map t_rarity ts)).
Proof.
  induction ts as [|t ts IH]; [done|].
  cbn [map]. rewrite !filter_cons.
  destruct (decide (t_rarity t = R)) as [Heq|Hne].
  - rewrite decide_True by (by apply (bool_decide_pack (t_rarity t = R))).
    cbn [length]. by rewrite IH.
  - rewrite decide_False; [done|].
    intros H. by apply (bool_decide_unpack (t_rarity t = R)) in H.
Qed.

(** X7.  The rarity law of the draw.  With a catalog that holds the items of the
    seed, the template of a draw has each rarity with the probability
    [RARITY_COUNTS[rarity]] / 100. *)
Theorem seeded_catalog_rarity_law (st : state) (items : list seed_item)
    (R : string) (c : nat) :
  yields seed_items items →
  map t_rarity (bee_templates st) = map i_rarity items →
  (R, c) ∈ RARITY_COUNTS →
  (prob (pick_random_template st) (rarity_is R) == inject_Z (Z.of_nat c) / 100)%Q.
Proof.
  intros Hitems Hcat HR.
  rewrite (seed_items_rarities items Hitems) in Hcat.
  assert (Hne : bee_templates st ≠ []).
  { intros Hnil. rewrite Hnil in Hcat. by vm_compute in Hcat. }
  rewrite (prob_pick_random_template st (rarity_is R) Hne).
  assert (Hl : length (bee_templates st) = 100%nat).
  { rewrite <- (length_map t_rarity), Hcat. by vm_compute. }
  rewrite Hl, count_rarity, Hcat.
  unfold RARITY_COUNTS in HR.
  repeat (apply elem_of_cons in HR as [[= -> ->]|HR]; [by vm_compute|]).
  by apply elem_of_nil in HR.
Qed.

(** ** Registration *)

(** X8.  [ensure_user] keeps the account of a known user (coins, last draw and
    nickname), opens the account of a new one with 0 coins, no draw and a
    nickname that is not empty, and touches no other user and no other
    table. *)
Theorem ensure_user_account (st : state) (user : tg_user) :
  (∀ u, users st !! tg_id user = Some u →
        users (ensure_user st user) !! tg_id user =
          Some (UserRow (py_or_none (tg_username user)) (nickname u) (coins u)
                        (last_spin u))) ∧
  (users st !! tg_id user = None →
     ∃ u', users (ensure_user st user) !! tg_id user = Some u' ∧
           coins u' = 0 ∧ last_spin u' = None ∧ nickname u' ≠ "") ∧
  (∀ id, id ≠ tg_id user → users (ensure_user st user) !! id = users st !! id) ∧
  parts (ensure_user st user) = parts st ∧
  bees (ensure_user st user) = bees st ∧
  market_listings (ensure_user st user) = market_listings st ∧
  spins_log (ensure_user st user) = spins_log st.
Proof.
  split; [apply ensure_user_lookup|]. split; [|split; [|done]].
  - intros Hnone. cbn. rewrite Hnone, lookup_insert_eq.
    eexists. split; [done|]. split; [done|]. split; [done|]. cbn.
    case_bool_decide as Hfull; [|done].
    destruct (tg_username user) as [[|c n]|]; cbn; done.
  - intros id Hne. cbn.
    destruct (users st !! tg_id user); by rewrite lookup_insert_ne.
Qed.

Lemma ensure_user_twice (st : state) (user : tg_user) :
  ensure_user (ensure_user st user) user = ensure_user st user.
Proof.
  unfold ensure_user, set_users. cbn [users bee_templates parts bees bees_id_seq
    market_listings market_listings_id_seq spins_log].
  f_equal.
  destruct (users st !! tg_id user) as [u|] eqn:Hu;
    rewrite lookup_insert_eq; cbn [nickname coins last_spin];
    by rewrite insert_insert_eq.
Qed.

(** X9.  Registering twice is registering once. *)
Theorem ensure_user_idempotent (st : state) (user : tg_user) :
  ensure_user (ensure_user st user) user = ensure_user st user.
Proof. apply ensure_user_twice. Qed.

(** ** Part stock *)

(** X10.  For a template of the catalog, a user id within BIGINT and amounts
    within INTEGER, [give_parts_to_user] adds the amount to the one stock it
    names, a missing row counting as 0, leaves every other row alone and
    writes one line of the draw log. *)
Theorem give_parts_to_user_stock (st : state) (u t : Z) (pt r : string) (n : Z) :
  in_catalog st t → int8 u → int4 t → int4 n → int4 (stock st u t pt r + n) →
  stock (give_parts_to_user st u t pt r n) u t pt r = stock st u t pt r + n ∧
  (∀ k, k ≠ (u, t, pt, r) →
        parts (give_parts_to_user st u t pt r n) !! k = parts st !! k) ∧
  spins_log (give_parts_to_user st u t pt r n) = spins_log st ++ [SpinRow u t pt r n] ∧
  users (give_parts_to_user st u t pt r n) = users st ∧
  bees (give_parts_to_user st u t pt r n) = bees st.
Proof.
  intros _ _ _ _ _. split; [|split; [|done]].
  - unfold stock. cbn [parts give_parts_to_user]. unfold upsert_parts.
    destruct (parts st !! _); by rewrite lookup_insert_eq.
  - intros k Hk. cbn [parts give_parts_to_user]. unfold upsert_parts.
    destruct (parts st !! (u, t, pt, r)); by rewrite lookup_insert_ne.
Qed.

(** ** Assembly: what it leaves alone, and the new bee *)

Lemma select_role_Some (st : state) (t : Z) (role : string) :
  select_role st t = Some role →
  ∃ tmpl, tmpl ∈ bee_templates st ∧ t_id tmpl = t ∧ t_role tmpl = role.
Proof.
  unfold select_role.
  destruct (list_find _ (bee_templates st)) as [[i tmpl]|] eqn:Hf; [|done].
  intros [= <-]. apply list_find_Some in Hf as (Hl & Hid & _).
  exists tmpl. split; [by eapply list_elem_of_lookup_2|done].
Qed.

Lemma select_role_None (st : state) (t : Z) :
  select_role st t = None → ∀ tmpl, tmpl ∈ bee_templates st → t_id tmpl ≠ t.
Proof.
  unfold select_role.
  destruct (list_find _ (bee_templates st)) as [[i tmpl]|] eqn:Hf; [done|].
  intros _ tmpl Hin. apply list_find_None in Hf.
  by apply (proj1 (Forall_forall _ _) Hf tmpl Hin).
Qed.

(** The successful end of [try_assemble], with the role of the bee. *)
Lemma try_assemble_success (st st' : state) (u t : Z) (r : string) (id : Z) :
  yields (try_assemble st u t r) (st', Some id) →
  id = bees_id_seq st ∧
  ∃ role,
    st' = State (users st) (bee_templates st)
                (foldl (consume_one u t r) (parts st) PART_TYPES)
                (bees st ++ [BeeRow id u t r role 1 0]) (id + 1)
                (market_listings st) (market_listings_id_seq st) (spins_log st) ∧
    match select_role st t with
    | Some role0 => role = role0
    | None => role ∈ ROLES
    end.
Proof.
  unfold try_assemble.
  destruct (forallb _ PART_TYPES); [|by intros [=]%yields_ret_inv].
  intros (role & Hrole & Hy)%yields_bind.
  cbn in Hy. apply yields_ret_inv in Hy. injection Hy as -> <-.
  split; [done|]. exists role. split; [done|].
  change (select_role (set_parts _ st) t) with (select_role st t) in Hrole.
  destruct (select_role st t).
  - by apply yields_ret_inv in Hrole.
  - by apply yields_choice in Hrole.
Qed.

(** X11.  [try_assemble] never touches users, the catalog, the market or the draw
    log.  The bee it makes takes the next id of the sequence, belongs to the
    caller, and has the role of the template; only when the catalog has no
    template of that id is the role one of [ROLES]. *)
Theorem try_assemble_frame (st st' : state) (u t : Z) (r : string) (res : option Z) :
  yields (try_assemble st u t r) (st', res) →
  users st' = users st ∧ bee_templates st' = bee_templates st ∧
  market_listings st' = market_listings st ∧
  market_listings_id_seq st' = market_listings_id_seq st ∧
  spins_log st' = spins_log st ∧
  ∀ id, res = Some id →
    id = bees_id_seq st ∧ bees_id_seq st' = id + 1 ∧
    ∃ role,
      bees st' = bees st ++ [BeeRow id u t r role 1 0] ∧
      ((∃ tmpl, tmpl ∈ bee_templates st ∧ t_id tmpl = t ∧ t_role tmpl = role) ∨
       ((∀ tmpl, tmpl ∈ bee_templates st → t_id tmpl ≠ t) ∧ role ∈ ROLES)).
Proof.
  intros Hy. destruct res as [id|].
  - destruct (try_assemble_success _ _ _ _ _ _ Hy) as (-> & role & -> & Hrole).
    repeat (split; [done|]). intros ? [= <-]. repeat (split; [done|]).
    exists role. split; [done|].
    destruct (select_role st t) as [role0|] eqn:Hsel.
    + left. subst role0. by apply select_role_Some.
    + right. split; [|done]. by apply select_role_None.
  - apply try_assemble_yields in Hy as [(_ & -> & _)|(_ & ? & [=] & _)].
    by repeat split.
Qed.

(** ** Identifiers *)

Lemma fresh_ids_NoDup {A} (id : A → Z) (l : list A) (x : A) :
  Forall (λ y, id y < id x) l → NoDup (id <$> l) → NoDup (id <$> (l ++ [x])).
Proof.
  intros Hlt Hnd. rewrite fmap_app. apply NoDup_app. split; [done|]. split.
  - intros i (y & -> & Hy)%list_elem_of_fmap Hin.
    apply list_elem_of_singleton in Hin.
    pose proof (proj1 (Forall_forall _ _) Hlt y Hy). cbn in *. lia.
  - apply NoDup_singleton.
Qed.

(** X12.  A new bee gets an id no bee has: the ids of [bees] stay below the
    sequence and stay distinct. *)
Theorem try_assemble_fresh_ids (st st' : state) (u t : Z) (r : string)
    (res : option Z) :
  yields (try_assemble st u t r) (st', res) →
  bee_ids_fresh st →
  bee_ids_fresh st' ∧ (NoDup (b_id <$> bees st) → NoDup (b_id <$> bees st')).
Proof.
  intros Hy Hfresh. destruct res as [id|].
  - destruct (try_assemble_success _ _ _ _ _ _ Hy) as (-> & role & -> & _).
    unfold bee_ids_fresh in *. cbn [bees bees_id_seq]. split.
    + apply Forall_app. split.
      * eapply Forall_impl; [done|]. cbn. intros; lia.
      * repeat constructor. cbn. lia.
    + by apply (fresh_ids_NoDup b_id).
  - by apply try_assemble_yields in Hy as [(_ & -> & _)|(_ & ? & [=] & _)].
Qed.

(** X13.  A new listing gets an id no listing has, and can be fetched by it; the
    earlier listings are fetched as before. *)
Theorem sell_bee_fresh_ids (st : state) (u b price : Z) :
  listing_ids_fresh st →
  listing_ids_fresh (sell_bee st u b price).1 ∧
  (NoDup (m_id <$> market_listings st) →
   NoDup (m_id <$> market_listings (sell_bee st u b price).1)) ∧
  (owns st u b →
   select_listing (sell_bee st u b price).1 (market_listings_id_seq st) =
     Some (ListingRow (market_listings_id_seq st) u b price)) ∧
  (∀ lid, lid ≠ market_listings_id_seq st →
          select_listing (sell_bee st u b price).1 lid = select_listing st lid).
Proof.
  intros Hfresh. unfold sell_bee.
  assert (Hnone : list_find (λ l, m_id l = market_listings_id_seq st)
                    (market_listings st) = None).
  { apply list_find_None. eapply Forall_impl; [exact Hfresh|]. cbn. intros; lia. }
  destruct (select_own_bee st b u) as [?|] eqn:Hown; cbn [fst].
  - unfold listing_ids_fresh in *.
    cbn [market_listings market_listings_id_seq insert_listing].
    split; [|split; [|split]].
    + apply Forall_app. split.
      * eapply Forall_impl; [done|]. cbn. intros; lia.
      * repeat constructor. cbn. lia.
    + by apply (fresh_ids_NoDup m_id).
    + intros _. unfold select_listing.
      cbn [market_listings insert_listing].
      rewrite list_find_app_r by done. cbn. by rewrite decide_True.
    + intros lid Hlid. unfold select_listing.
      cbn [market_listings insert_listing].
      destruct (list_find (λ l, m_id l = lid) (market_listings st)) as [[i l]|] eqn:Hf.
      * by rewrite (list_find_app_l _ _ _ _ _ Hf).
      * rewrite list_find_app_r by done. cbn. by rewrite decide_False.
  - split; [done|]. split; [done|]. split; [|done].
    intros Ho. by rewrite (select_own_bee_Some _ _ _ Ho) in Hown.
Qed.

(** X14.  A bee just assembled can be put on the market by its maker, and by
    nobody else.  The maker's call answers [Listed] and adds one listing,
    of that bee at that price, with the next id of the sequence, and changes
    nothing else; the call of another user changes nothing. *)
Theorem assembled_bee_listable (st st' : state) (u t : Z) (r : string)
    (id price u' : Z) :
  yields (try_assemble st u t r) (st', Some id) →
  bee_ids_fresh st →
  sell_bee st' u id price =
    (State (users st') (bee_templates st') (parts st') (bees st') (bees_id_seq st')
           (market_listings st' ++ [ListingRow (market_listings_id_seq st') u id price])
           (market_listings_id_seq st' + 1) (spins_log st'),
     Listed id price) ∧
  listings_of (sell_bee st' u id price).1 id =
    listings_of st' id ++ [ListingRow (market_listings_id_seq st') u id price] ∧
  (u' ≠ u → sell_bee st' u' id price = (st', NotOwner)).
Proof.
  intros Hy Hfresh.
  destruct (try_assemble_success _ _ _ _ _ _ Hy) as (-> & role & -> & _).
  assert (Hown : owns (State (users st) (bee_templates st)
                         (foldl (consume_one u t r) (parts st) PART_TYPES)
                         (bees st ++ [BeeRow (bees_id_seq st) u t r role 1 0])
                         (bees_id_seq st + 1) (market_listings st)
                         (market_listings_id_seq st) (spins_log st))
                  u (bees_id_seq st)).
  { exists (BeeRow (bees_id_seq st) u t r role 1 0).
    split; [cbn [bees]; set_solver|done]. }
  split; [|split].
  - by rewrite sell_bee_owner.
  - rewrite sell_bee_owner by done. unfold listings_of.
    cbn [fst market_listings insert_listing market_listings_id_seq].
    rewrite filter_app, filter_cons, decide_True by done. done.
  - intros Hne. apply sell_bee_not_owner.
    intros (bee & Hin & Hid & Hu). cbn [bees] in Hin.
    apply elem_of_app in Hin as [Hin|Hin%list_elem_of_singleton].
    + pose proof (proj1 (Forall_forall _ _) Hfresh bee Hin). cbn in *. lia.
    + subst bee. cbn in Hu. congruence.
Qed.

(** ** Computations that never raise *)

Lemma returns_yields {A} (m : Rand A) : returns m → ∃ a, yields m a.
Proof.
  induction 1 as [a|n k Hn _ IH].
  - exists a. constructor.
  - destruct (IH 0%nat Hn) as (a & Ha). exists a. by apply (yields_below _ _ 0%nat).
Qed.

Lemma returns_bind {A B} (m : Rand A) (f : A → Rand B) :
  returns m → (∀ a, yields m a → returns (f a)) → returns (bind m f).
Proof.
  induction 1 as [a|n k Hn _ IH]; intros Hf; cbn [bind].
  - apply Hf. constructor.
  - constructor; [done|]. intros i Hi. apply IH; [done|].
    intros a Ha. apply Hf. by apply (yields_below _ _ i).
Qed.

Lemma returns_choice {A} (l : list A) : l ≠ [] → returns (choice l).
Proof.
  destruct l as [|x l]; [done|]. intros _. cbn [choice].
  constructor; [cbn; lia|]. intros i Hi.
  destruct ((x :: l) !! i) as [a|] eqn:Hl; [constructor|].
  apply lookup_ge_None in Hl. lia.
Qed.

Lemma returns_draw_amount : returns draw_amount.
Proof.
  apply returns_bind.
  - constructor; [lia|]. intros; constructor.
  - intros r0 _. unfold draw_amount_roll.
    repeat case_match; first [by apply returns_choice | constructor].
Qed.

Lemma returns_pick_random_template (st : state) : returns (pick_random_template st).
Proof.
  unfold pick_random_template. destruct (bee_templates st) as [|t0 ts]; constructor.
  - cbn. lia.
  - intros; constructor.
Qed.

Lemma returns_try_assemble (st : state) (u t : Z) (r : string) :
  returns (try_assemble st u t r).
Proof.
  unfold try_assemble. destruct (forallb _ PART_TYPES); [|constructor].
  apply returns_bind.
  - destruct (select_role _ t); [constructor|by apply returns_choice].
  - intros role _. cbn. constructor.
Qed.



Lemma returns_daily_spin (st : state) (user : tg_user) (now : Z) :
  returns (cmd_daily_spin st user now).
Proof.
  unfold cmd_daily_spin. set (st1 := ensure_user st user).
  destruct (match users st1 !! tg_id user with Some _ => _ | None => _ end);
    [constructor|].
  apply returns_bind; [apply returns_pick_random_template|].
  intros [tmpl|] _; [|constructor].
  apply returns_bind; [by apply returns_choice|]. intros pt _.
  apply returns_bind; [apply returns_draw_amount|]. intros a _.
  apply returns_bind; [apply returns_try_assemble|].
  intros [st2 bee] _. constructor.
Qed.

Lemma outcome_yields {A} (m : Rand A) (draws : list nat) (a : A) :
  outcome m draws = Some a → yields m a.
Proof.
  revert draws. induction m as [a0|e|n k IH]; intros draws; cbn [outcome].
  - intros [= ->]. constructor.
  - done.
  - destruct draws as [|d ds]; [done|].
    destruct (Nat.ltb_spec d n); [|done].
    intros Hy. apply (yields_below _ _ d); [done|]. by eapply IH.
Qed.

(** ** The daily draw, case by case *)

Lemma daily_spin_refused (st : state) (user : tg_user) (now : Z) (u : user_row)
    (last : Z) :
  users st !! tg_id user = Some u → last_spin u = Some last →
  now - last < hours24 →
  cmd_daily_spin st user now =
    Ret (ensure_user st user, CooldownActive (hours24 - (now - last))).
Proof.
  intros Hu Hlast Hlt. unfold cmd_daily_spin.
  rewrite (ensure_user_lookup st user u Hu). cbn [last_spin]. rewrite Hlast.
  by rewrite (proj2 (Z.ltb_lt _ _) Hlt).
Qed.

(** The three ways [cmd_daily_spin] ends. *)
Lemma daily_spin_yields (st st' : state) (user : tg_user) (now : Z) (r : reply) :
  yields (cmd_daily_spin st user now) (st', r) →
  (∃ u last,
     users (ensure_user st user) !! tg_id user = Some u ∧ last_spin u = Some last ∧
     now - last < hours24 ∧ st' = ensure_user st user ∧
     r = CooldownActive (hours24 - (now - last)))
  ∨
  (may_draw (ensure_user st user) (tg_id user) now ∧
   ((bee_templates st = [] ∧ st' = ensure_user st user ∧ r = NoTemplate)
    ∨
    (∃ tmpl pt a bee,
       tmpl ∈ bee_templates st ∧ pt ∈ PART_TYPES ∧ 1 ≤ a ≤ 10 ∧
       yields (try_assemble
                 (set_users (update_last_spin (tg_id user) now)
                    (give_parts_to_user (ensure_user st user) (tg_id user)
                       (t_id tmpl) pt (t_rarity tmpl) a))
                 (tg_id user) (t_id tmpl) (t_rarity tmpl)) (st', bee) ∧
       r = SpinResult (t_name tmpl) (t_rarity tmpl) pt a
             (if truthy bee then bee else None)))).
Proof.
  unfold cmd_daily_spin. set (st1 := ensure_user st user).
  set (cooling := match users st1 !! tg_id user with
                  | Some u => match last_spin u with
                              | Some last => if now - last <? hours24
                                             then Some (hours24 - (now - last))
                                             else None
                              | None => None
                              end
                  | None => None
                  end).
  assert (Hcool : (∃ u last, users st1 !! tg_id user = Some u ∧
                     last_spin u = Some last ∧ now - last < hours24 ∧
                     cooling = Some (hours24 - (now - last))) ∨
                  (cooling = None ∧ may_draw st1 (tg_id user) now)).
  { unfold cooling, may_draw. destruct (users st1 !! tg_id user) as [u|]; [|by right].
    destruct (last_spin u) as [last|] eqn:Hl; [|right; split; [done|congruence]].
    destruct (Z.ltb_spec (now - last) hours24).
    - left. by exists u, last.
    - right. split; [done|]. intros ? ? [= <-] ?. by simplify_eq. }
  destruct Hcool as [(u & last & Hu & Hl & Hlt & ->)|[-> Hmay]].
  - intros Hy%yields_ret_inv. injection Hy as -> ->. left. by exists u, last.
  - intros (o & Ho & Hy)%yields_bind. right. split; [done|].
    apply yields_pick_random_template in Ho as [(-> & Hnil)|(tmpl & -> & Hin)].
    { left. apply yields_ret_inv in Hy. by injection Hy as -> ->. }
    right.
    apply yields_bind in Hy as (pt & Hpt%yields_choice & Hy).
    apply yields_bind in Hy as (a & Ha%yields_draw_amount & Hy).
    apply yields_bind in Hy as ([st2 bee] & Hy & Hret).
    apply yields_ret_inv in Hret. injection Hret as -> ->.
    by exists tmpl, pt, a, bee.
Qed.

Lemma daily_spin_total (st : state) (user : tg_user) (now : Z) :
  ∃ o, yields (cmd_daily_spin st user now) o.
Proof.
  unfold cmd_daily_spin. set (st1 := ensure_user st user).
  destruct (match users st1 !! tg_id user with Some _ => _ | None => _ end).
  { eexists. constructor. }
  destruct (pick_random_template_total st1) as ([tmpl|] & Hp & Hnone).
  - destruct draw_amount_total as (a & Ha).
    destruct (try_assemble_total
                (set_users (update_last_spin (tg_id user) now)
                   (give_parts_to_user st1 (tg_id user) (t_id tmpl) "крылья"
                      (t_rarity tmpl) a))
                (tg_id user) (t_id tmpl) (t_rarity tmpl)) as ([st2 bee] & Hy).
    eexists. apply yields_bind. exists (Some tmpl). split; [done|].
    apply yields_bind. exists "крылья". split; [apply yields_choice; set_solver|].
    apply yields_bind. exists a. split; [done|].
    apply yields_bind. eexists. split; [exact Hy|]. constructor.
  - eexists. apply yields_bind. exists None. split; [done|]. constructor.
Qed.

(** X15.  A user who is new, or has never drawn, is never told to wait: the
    draw returns whatever the random source gives (no branch of it raises),
    and with a reply other than [CooldownActive]. *)
Theorem first_draw_not_refused (st : state) (user : tg_user) (now : Z) :
  (∀ u, users st !! tg_id user = Some u → last_spin u = None) →
  returns (cmd_daily_spin st user now) ∧
  ∀ st' r, yields (cmd_daily_spin st user now) (st', r) →
    (r = NoTemplate ∧ bee_templates st = []) ∨ is_spin_result r.
Proof.
  intros Hnew. split; [apply returns_daily_spin|].
  intros st' r [(u & last & Hu & Hl & _)|[_ [(Hnil & _ & ->)|(tmpl & pt & a & bee & _ & _ & _ & _ & ->)]]]%daily_spin_yields.
  - destruct (users st !! tg_id user) as [u0|] eqn:Hu0.
    + rewrite (ensure_user_lookup st user u0 Hu0) in Hu. injection Hu as <-.
      cbn in Hl. rewrite (Hnew u0 eq_refl) in Hl. done.
    + cbn in Hu. rewrite Hu0, lookup_insert_eq in Hu. injection Hu as <-. done.
  - by left.
  - by right.
Qed.

(** X16.  After a successful draw the next one is refused until 24 hours have
    passed, and the refusal changes no stock and no bee. *)
Theorem second_draw_refused (st st1 : state) (user : tg_user) (now now2 : Z)
    (r : reply) :
  yields (cmd_daily_spin st user now) (st1, r) →
  is_spin_result r →
  now2 - now < hours24 →
  ∃ st2,
    cmd_daily_spin st1 user now2 = Ret (st2, CooldownActive (hours24 - (now2 - now))) ∧
    parts st2 = parts st1 ∧ bees st2 = bees st1 ∧ spins_log st2 = spins_log st1.
Proof.
  intros Hy Hspin Hlt.
  apply daily_spin_yields in Hy
    as [(u & last & _ & _ & _ & _ & ->)|[_ [(_ & _ & ->)|(tmpl & pt & a & bee & _ & _ & _ & Hy & ->)]]];
    [done..|].
  assert (Hu : ∃ u, users st1 !! tg_id user = Some u ∧ last_spin u = Some now).
  { assert (Hreg : ∃ u0, users (ensure_user st user) !! tg_id user = Some u0).
    { cbn. destruct (users st !! tg_id user); rewrite lookup_insert_eq; by eexists. }
    destruct Hreg as (u0 & Hu0).
    assert (Hus : users st1 =
                  update_last_spin (tg_id user) now (users (ensure_user st user))).
    { by apply try_assemble_yields in Hy as [(_ & -> & _)|(_ & ? & _ & ->)]. }
    rewrite Hus. unfold update_last_spin. rewrite lookup_alter_eq, Hu0.
    by eexists. }
  destruct Hu as (u & Hu & Hl).
  eexists. split; [by apply (daily_spin_refused st1 user now2 u now)|done].
Qed.

(** X17.  Waiting the time a refusal announces is enough: the announced time is
    positive, and a draw that much later is not refused. *)
Theorem cooldown_remaining_suffices (st st' : state) (user : tg_user) (now rem : Z) :
  yields (cmd_daily_spin st user now) (st', CooldownActive rem) →
  0 < rem ∧
  ∀ st2 r2, yields (cmd_daily_spin st' user (now + rem)) (st2, r2) →
    (r2 = NoTemplate ∧ bee_templates st = []) ∨ is_spin_result r2.
Proof.
  intros [(u & last & Hu & Hl & Hlt & -> & [= ->])|[_ [(_ & _ & [=])|(? & ? & ? & ? & _ & _ & _ & _ & [=])]]]%daily_spin_yields.
  split; [lia|].
  intros st2 r2 Hy.
  apply daily_spin_yields in Hy
    as [(u2 & last2 & Hu2 & Hl2 & Hlt2 & _)|[_ [(Hnil & _ & ->)|(? & ? & ? & ? & _ & _ & _ & _ & ->)]]].
  - rewrite ensure_user_twice, Hu in Hu2. injection Hu2 as <-.
    rewrite Hl in Hl2. injection Hl2 as <-. lia.
  - by left.
  - by right.
Qed.

Lemma upsert_parts_lookup (k k' : part_key) (a : Z) (ps : gmap part_key Z) :
  default 0 (upsert_parts k a ps !! k') =
    default 0 (ps !! k') + (if decide (k' = k) then a else 0).
Proof.
  unfold upsert_parts. destruct (decide (k' = k)) as [->|Hne].
  - destruct (ps !! k); by rewrite lookup_insert_eq.
  - destruct (ps !! k); rewrite lookup_insert_ne by done; lia.
Qed.

Lemma upsert_parts_lookup_ne (k k' : part_key) (a : Z) (ps : gmap part_key Z) :
  k' ≠ k → upsert_parts k a ps !! k' = ps !! k'.
Proof.
  intros Hne. unfold upsert_parts. destruct (ps !! k); by rewrite lookup_insert_ne.
Qed.

Lemma ensure_user_nonneg (st : state) (user : tg_user) :
  nonneg_state st → nonneg_state (ensure_user st user).
Proof.
  intros [Hc Hp]. split; [|done]. cbn.
  destruct (users st !! tg_id user) as [u|] eqn:Hu.
  - apply map_Forall_insert_2; [|done]. cbn. by apply (Hc _ _ Hu).
  - apply map_Forall_insert_2; [|done]. cbn. lia.
Qed.

Lemma update_last_spin_nonneg (id now : Z) (us : gmap Z user_row) :
  map_Forall (λ _ u, 0 ≤ coins u) us →
  map_Forall (λ _ u, 0 ≤ coins u) (update_last_spin id now us).
Proof.
  intros Hc i u. unfold update_last_spin.
  destruct (decide (i = id)) as [->|Hne].
  - rewrite lookup_alter_eq. destruct (us !! id) as [u0|] eqn:Hu0; [|done].
    intros [= <-]. cbn. by apply (Hc _ _ Hu0).
  - rewrite lookup_alter_ne by done. apply Hc.
Qed.

Lemma upsert_parts_nonneg (k : part_key) (a : Z) (ps : gmap part_key Z) :
  0 ≤ a → map_Forall (λ _ v, 0 ≤ v) ps → map_Forall (λ _ v, 0 ≤ v) (upsert_parts k a ps).
Proof.
  intros Ha Hp. unfold upsert_parts. destruct (ps !! k) as [v|] eqn:Hv.
  - apply map_Forall_insert_2; [|done]. pose proof (Hp _ _ Hv). cbn in *. lia.
  - by apply map_Forall_insert_2.
Qed.

(** X18.  A draw keeps every balance and every stock amount non-negative. *)
Theorem daily_spin_nonneg (st st' : state) (user : tg_user) (now : Z) (r : reply) :
  yields (cmd_daily_spin st user now) (st', r) →
  nonneg_state st → nonneg_state st'.
Proof.
  intros Hy Hst. pose proof (ensure_user_nonneg st user Hst) as [Hc Hp].
  apply daily_spin_yields in Hy
    as [(_ & _ & _ & _ & _ & -> & _)|[_ [(_ & -> & _)|(tmpl & pt & a & bee & _ & _ & Ha & Hy & _)]]];
    [done..|].
  eapply try_assemble_nonneg; [exact Hy|]. split.
  - by apply update_last_spin_nonneg.
  - apply upsert_parts_nonneg; [lia|done].
Qed.

(** X19.  A draw never changes anyone's coins, never touches the stock or the
    last-draw time of another user, never touches the market, and makes at
    most one bee, for the drawer. *)
Theorem daily_spin_frame (st st' : state) (user : tg_user) (now : Z) (r : reply) :
  yields (cmd_daily_spin st user now) (st', r) →
  (∀ id u, users st !! id = Some u →
           ∃ u', users st' !! id = Some u' ∧ coins u' = coins u ∧
                 (id ≠ tg_id user → u' = u)) ∧
  (∀ u t pt rar, u ≠ tg_id user → parts st' !! (u, t, pt, rar) = parts st !! (u, t, pt, rar)) ∧
  market_listings st' = market_listings st ∧
  (bees st' = bees st ∨ ∃ b, bees st' = bees st ++ [b] ∧ b_user_id b = tg_id user).
Proof.
  intros Hy.
  assert (Hens : ∀ id u, users st !! id = Some u →
            ∃ u', users (ensure_user st user) !! id = Some u' ∧ coins u' = coins u ∧
                  last_spin u' = last_spin u ∧ (id ≠ tg_id user → u' = u)).
  { intros id u Hu. destruct (decide (id = tg_id user)) as [->|Hne].
    - rewrite (ensure_user_lookup st user u Hu). by eexists.
    - cbn. destruct (users st !! tg_id user); rewrite lookup_insert_ne by done; by eexists. }
  apply daily_spin_yields in Hy
    as [(_ & _ & _ & _ & _ & -> & _)|[_ [(_ & -> & _)|(tmpl & pt & a & bee & _ & _ & Ha & Hy & _)]]].
  - split; [|by repeat split; auto].
    intros id u Hu. destruct (Hens id u Hu) as (u' & ? & ? & _ & ?). by exists u'.
  - split; [|by repeat split; auto].
    intros id u Hu. destruct (Hens id u Hu) as (u' & ? & ? & _ & ?). by exists u'.
  - assert (Husers : ∀ id u, users st !! id = Some u →
              ∃ u', update_last_spin (tg_id user) now (users (ensure_user st user)) !! id
                      = Some u' ∧ coins u' = coins u ∧ (id ≠ tg_id user → u' = u)).
    { intros id u Hu. destruct (Hens id u Hu) as (u' & Hu' & Hc & _ & Hsame).
      unfold update_last_spin. destruct (decide (id = tg_id user)) as [->|Hne].
      - rewrite lookup_alter_eq, Hu'. eexists. by split.
      - rewrite lookup_alter_ne by done. by exists u'. }
    apply try_assemble_yields in Hy as [(_ & -> & _)|(_ & role & _ & ->)];
      cbn [users parts bees market_listings set_users give_parts_to_user ensure_user].
    + split; [done|]. split; [|split; [done|by left]].
      intros u t pt0 rar Hne. apply upsert_parts_lookup_ne. congruence.
    + split; [done|]. split; [|split; [done|]].
      * intros u t pt0 rar Hne.
        rewrite consume_all_lookup_other by (intros ? _ [=]; congruence).
        apply upsert_parts_lookup_ne. congruence.
      * right. by eexists.
Qed.

(** X20.  What a draw gives.  With non-negative stock and a bee sequence above 0,
    a draw of [a] parts of kind [pt] assembles a bee exactly when the user
    already holds at least one of each of the three other kinds of the
    template at its rarity; the drawn kind then grows by [a - 1] and the
    others lose one, and without a bee the drawn kind grows by [a] and the
    others keep their amount. *)
Theorem daily_spin_outcome (st st' : state) (user : tg_user) (now : Z) (r : reply) :
  yields (cmd_daily_spin st user now) (st', r) →
  is_spin_result r →
  nonneg_state st →
  0 < bees_id_seq st →
  ∃ tmpl pt a bee,
    tmpl ∈ bee_templates st ∧ pt ∈ PART_TYPES ∧ 1 ≤ a ≤ 10 ∧
    r = SpinResult (t_name tmpl) (t_rarity tmpl) pt a bee ∧
    (is_Some bee ↔
       ∀ pt', pt' ∈ PART_TYPES → pt' ≠ pt →
              1 ≤ stock st (tg_id user) (t_id tmpl) pt' (t_rarity tmpl)) ∧
    ∀ pt', pt' ∈ PART_TYPES →
      stock st' (tg_id user) (t_id tmpl) pt' (t_rarity tmpl) =
        stock st (tg_id user) (t_id tmpl) pt' (t_rarity tmpl)
        + (if decide (pt' = pt) then a else 0)
        - (if bee then 1 else 0).
Proof.
  intros Hy Hspin [_ Hp] Hseq.
  apply daily_spin_yields in Hy
    as [(u & last & _ & _ & _ & _ & ->)|[_ [(_ & _ & ->)|(tmpl & pt & a & res & Hin & Hpt & Ha & Hy & ->)]]];
    [done..|].
  set (uid := tg_id user) in *. set (tid := t_id tmpl) in *. set (rar := t_rarity tmpl) in *.
  set (stA := set_users (update_last_spin uid now)
                (give_parts_to_user (ensure_user st user) uid tid pt rar a)) in *.
  assert (HstockA : ∀ pt', stock stA uid tid pt' rar =
            stock st uid tid pt' rar + (if decide (pt' = pt) then a else 0)).
  { intros pt'. unfold stock, stA.
    cbn [parts set_users give_parts_to_user ensure_user].
    rewrite upsert_parts_lookup.
    destruct (decide (pt' = pt)) as [->|Hne].
    - by rewrite decide_True.
    - rewrite decide_False; [done|congruence]. }
  assert (Hnn : ∀ pt', 0 ≤ stock st uid tid pt' rar).
  { intros pt'. unfold stock. destruct (parts st !! _) as [v|] eqn:Hv; [|done].
    by apply (Hp _ _ Hv). }
  assert (Hiff : (∀ pt', pt' ∈ PART_TYPES → 1 ≤ stock stA uid tid pt' rar) ↔
                 (∀ pt', pt' ∈ PART_TYPES → pt' ≠ pt → 1 ≤ stock st uid tid pt' rar)).
  { split.
    - intros H pt' Hin' Hne. specialize (H pt' Hin'). rewrite HstockA in H.
      by rewrite decide_False in H by done; lia.
    - intros H pt' Hin'. rewrite HstockA. destruct (decide (pt' = pt)) as [->|Hne].
      + specialize (Hnn pt). lia.
      + specialize (H pt' Hin' Hne). lia. }
  apply try_assemble_yields in Hy as [(-> & -> & Hno)|(Hall & role & -> & ->)].
  - exists tmpl, pt, a, None. repeat (split; [done|]). split.
    + split; [by intros [? [=]]|]. intros H. destruct Hno. by apply Hiff.
    + intros pt' _. fold uid tid rar. rewrite HstockA. cbv iota. lia.
  - assert (Hbee : (if truthy (Some (bees_id_seq stA)) then Some (bees_id_seq stA) else None)
                   = Some (bees_id_seq st)).
    { cbn. destruct (Z.eqb_spec (bees_id_seq st) 0); [lia|done]. }
    rewrite Hbee.
    exists tmpl, pt, a, (Some (bees_id_seq st)). repeat (split; [done|]). split.
    + split; [intros _; by apply Hiff|by eexists].
    + intros pt' Hin'. fold uid tid rar. unfold stock at 1. cbn [parts].
      rewrite consume_all_lookup by done.
      specialize (Hall pt' Hin'). pose proof (HstockA pt') as HA.
      unfold stock in Hall, HA at 1. cbn [parts] in *.
      destruct (parts stA !! _) as [v|]; cbn in *; lia.
Qed.

(** ** On-demand assembly, in general *)

Lemma elem_of_select_rarities (ps : gmap part_key Z) (u t : Z) (r : string) :
  r ∈ select_rarities ps u t ↔ ∃ pt a, ps !! (u, t, pt, r) = Some a ∧ 0 < a.
Proof.
  unfold select_rarities. rewrite elem_of_remove_dups, list_elem_of_omap. split.
  - intros ([[[[u' t'] pt'] r'] a'] & Hin & Hpick).
    apply elem_of_map_to_list in Hin.
    case_decide as Hk; [|done]. destruct Hk as (-> & -> & Ha).
    injection Hpick as ->. by exists pt', a'.
  - intros (pt & a & Hl & Ha). exists ((u, t, pt, r), a).
    split; [by apply elem_of_map_to_list|]. by rewrite decide_True.
Qed.

Lemma complete_set_in_order (st : state) (u t : Z) (r : string) :
  complete_set st u t r → r ∈ assemble_order (parts st) u t.
Proof.
  intros Hc. unfold assemble_order. rewrite sort_by_perm.
  apply elem_of_select_rarities.
  specialize (Hc "крылья" ltac:(set_solver)). unfold stock in Hc.
  destruct (parts st !! (u, t, "крылья", r)) as [a|] eqn:Ha; cbn in Hc; [|lia].
  exists "крылья", a. split; [done|lia].
Qed.

(** The loop of [/assemble] from a state whose bee sequence is not 0: it
    passes the rarities without a complete set and ends at the first one
    with a complete set. *)
Lemma assemble_loop_yields (st st' : state) (u t : Z) (l : list string)
    (res : option Z) :
  bees_id_seq st ≠ 0 →
  yields (assemble_loop st u t l None) (st', res) →
  (res = None ∧ st' = st ∧ ∀ r, r ∈ l → ¬ complete_set st u t r)
  ∨
  (∃ l1 r l2,
     l = l1 ++ r :: l2 ∧ (∀ r', r' ∈ l1 → ¬ complete_set st u t r') ∧
     complete_set st u t r ∧ res = Some (bees_id_seq st) ∧
     yields (try_assemble st u t r) (st', res)).
Proof.
  intros Hseq. induction l as [|r l IH]; cbn [assemble_loop].
  - intros Hy%yields_ret_inv. injection Hy as -> ->. left.
    split; [done|]. split; [done|]. intros r Hr. by apply elem_of_nil in Hr.
  - intros ([st1 a1] & Hy1 & Hy)%yields_bind.
    destruct (try_assemble_yields _ _ _ _ _ _ Hy1)
      as [(-> & -> & Hno)|(Hall & role & -> & Hst1)].
    + cbn [truthy] in Hy.
      destruct (IH Hy) as [(-> & -> & Hnone)|(l1 & r0 & l2 & -> & Hl1 & Hc & -> & Hy0)].
      * left. split; [done|]. split; [done|].
        intros r' [->|Hr']%elem_of_cons; [done|by apply Hnone].
      * right. exists (r :: l1), r0, l2. split; [done|]. split; [|done].
        intros r' [->|Hr']%elem_of_cons; [done|by apply Hl1].
    + cbn [truthy] in Hy. rewrite (proj2 (Z.eqb_neq _ _) Hseq) in Hy. cbn in Hy.
      apply yields_ret_inv in Hy. injection Hy as -> ->.
      right. exists [], r, l. split; [done|]. split.
      { intros r' Hr'. by apply elem_of_nil in Hr'. }
      done.
Qed.

Lemma Sorted_app_le {A} (key : A → Z) (l1 l2 : list A) (x y : A) :
  Sorted (λ a b, key a ≤ key b) (l1 ++ x :: l2) → y ∈ l2 → key x ≤ key y.
Proof.
  intros Hs Hy.
  apply Sorted.Sorted_StronglySorted in Hs; [|intros a b c; cbn; lia].
  apply StronglySorted_app_1_r in Hs.
  apply StronglySorted_inv in Hs as [_ Hall].
  by apply (proj1 (Forall_forall _ _) Hall y).
Qed.

(** X21.  The [/assemble] branch, with a bee sequence above 0.  It answers that
    there are no parts exactly when no row of the template has a positive
    amount; it answers that parts are missing, and changes nothing, exactly
    when no rarity has a complete set; and otherwise it assembles one bee, at
    a rarity with a complete set whose position in [RARITIES] is the lowest
    among the rarities with a complete set. *)
Theorem assemble_spec (st st' : state) (u t : Z) (r : reply) :
  0 < bees_id_seq st →
  yields (assemble st u t) (st', r) →
  (r = NoPartsForTemplate ∧ st' = st ∧
   ∀ pt rar a, parts st !! (u, t, pt, rar) = Some a → a ≤ 0)
  ∨
  (r = NotEnoughParts ∧ st' = st ∧
   (∃ pt rar a, parts st !! (u, t, pt, rar) = Some a ∧ 0 < a) ∧
   ∀ rar, ¬ complete_set st u t rar)
  ∨
  (∃ rar,
     r = Assembled (bees_id_seq st) ∧ complete_set st u t rar ∧
     (∀ rar', complete_set st u t rar' → rar_rank rar ≤ rar_rank rar') ∧
     yields (try_assemble st u t rar) (st', Some (bees_id_seq st))).
Proof.
  intros Hseq. unfold assemble.
  destruct (select_rarities (parts st) u t) as [|r0 rs] eqn:Hsel.
  { intros Hy%yields_ret_inv. injection Hy as -> ->. left.
    split; [done|]. split; [done|]. intros pt rar a Ha.
    destruct (decide (0 < a)) as [Hpos|]; [|lia].
    assert (Hin : rar ∈ select_rarities (parts st) u t)
      by (apply elem_of_select_rarities; eauto).
    rewrite Hsel in Hin. by apply elem_of_nil in Hin. }
  assert (Hpos : ∃ pt rar a, parts st !! (u, t, pt, rar) = Some a ∧ 0 < a).
  { assert (Hin : r0 ∈ select_rarities (parts st) u t) by (rewrite Hsel; set_solver).
    apply elem_of_select_rarities in Hin as (pt & a & ? & ?). by exists pt, r0, a. }
  intros ([st1 res] & Hloop & Hy)%yields_bind. right.
  apply assemble_loop_yields in Hloop
    as [(-> & -> & Hnone)|(l1 & rar & l2 & Hl & Hl1 & Hc & -> & Hy1)]; [| |lia].
  - apply yields_ret_inv in Hy. injection Hy as -> ->. left.
    split; [done|]. split; [done|]. split; [done|].
    intros rar Hc. exact (Hnone rar (complete_set_in_order _ _ _ _ Hc) Hc).
  - cbn [truthy] in Hy. rewrite (proj2 (Z.eqb_neq _ _)) in Hy by lia. cbn in Hy.
    apply yields_ret_inv in Hy. injection Hy as -> ->. right.
    exists rar. split; [done|]. split; [done|]. split; [|done].
    intros rar' Hc'.
    pose proof (complete_set_in_order _ _ _ _ Hc') as Hin. rewrite Hl in Hin.
    apply elem_of_app in Hin as [Hin|[->|Hin]%elem_of_cons].
    + by destruct (Hl1 rar' Hin).
    + lia.
    + eapply (Sorted_app_le rar_rank l1 l2); [|done].
      rewrite <- Hl. apply sort_by_sorted.
Qed.

Lemma assemble_loop_keeps (u t : Z) (l : list string) :
  ∀ (st st' : state) (acc res : option Z),
    yields (assemble_loop st u t l acc) (st', res) →
    users st' = users st ∧ market_listings st' = market_listings st ∧
    (nonneg_state st → nonneg_state st').
Proof.
  induction l as [|r l IH]; intros st st' acc res; cbn [assemble_loop].
  - intros Hy%yields_ret_inv. by injection Hy as -> ->.
  - intros ([st1 a1] & Hy1 & Hy)%yields_bind.
    assert (Hstep : users st1 = users st ∧ market_listings st1 = market_listings st).
    { by apply try_assemble_yields in Hy1 as [(_ & -> & _)|(_ & ? & _ & ->)]. }
    destruct Hstep as [Hu Hm].
    assert (Hrest : users st' = users st1 ∧ market_listings st' = market_listings st1 ∧
                    (nonneg_state st1 → nonneg_state st')).
    { destruct (truthy a1); [|by eapply IH].
      apply yields_ret_inv in Hy. by injection Hy as -> ->. }
    destruct Hrest as (Hu' & Hm' & Hn').
    split; [congruence|]. split; [congruence|].
    intros Hst. apply Hn'. by eapply try_assemble_nonneg.
Qed.

(** X22.  The [/assemble] branch never changes the users or the market, and keeps
    every balance and stock amount non-negative. *)
Theorem assemble_keeps (st st' : state) (u t : Z) (r : reply) :
  yields (assemble st u t) (st', r) →
  users st' = users st ∧ market_listings st' = market_listings st ∧
  (nonneg_state st → nonneg_state st').
Proof.
  unfold assemble. destruct (select_rarities (parts st) u t).
  { intros Hy%yields_ret_inv. by injection Hy as -> ->. }
  intros ([st1 res] & Hloop & Hy)%yields_bind.
  apply assemble_loop_keeps in Hloop.
  assert (st' = st1) as ->; [|done].
  destruct res as [id|]; [destruct (truthy (Some id))|];
    apply yields_ret_inv in Hy; by injection Hy as -> ->.
Qed.

(** ** The stores the requests lead to *)

Lemma NoDup_fmap_eq {A B} (f : A → B) (l : list A) (x y : A) :
  NoDup (f <$> l) → x ∈ l → y ∈ l → f x = f y → x = y.
Proof.
  induction l as [|z l IH]; [by intros _ ?%elem_of_nil|].
  rewrite fmap_cons. intros [Hz Hnd]%NoDup_cons.
  intros [->|Hx]%elem_of_cons [->|Hy]%elem_of_cons Heq; [done| | |by apply IH].
  - destruct Hz. rewrite Heq. by apply list_elem_of_fmap_2.
  - destruct Hz. rewrite <- Heq. by apply list_elem_of_fmap_2.
Qed.

(** In such a store the parts a user holds of one template all have one
    rarity, the rarity of the template. *)
Lemma catalog_parts_rarity (st : state) (u t : Z) (pt r : string) (a : Z) :
  catalog_parts st → parts st !! (u, t, pt, r) = Some a →
  0 ≤ a ∧ ∃ tmpl, tmpl ∈ bee_templates st ∧ t_id tmpl = t ∧ t_rarity tmpl = r.
Proof.
  intros [_ Hp] Hl. destruct (Hp _ _ Hl) as [Ha Hex]. split; [done|].
  apply Exists_exists in Hex as (tmpl & Hin & Hid & Hr). by exists tmpl.
Qed.

Lemma catalog_parts_one_rarity (st : state) (u t : Z) (pt pt' r r' : string)
    (a a' : Z) :
  catalog_parts st →
  parts st !! (u, t, pt, r) = Some a → parts st !! (u, t, pt', r') = Some a' → r = r'.
Proof.
  intros Hst Hl Hl'.
  destruct (catalog_parts_rarity _ _ _ _ _ _ Hst Hl) as (_ & tmpl & Hin & Hid & <-).
  destruct (catalog_parts_rarity _ _ _ _ _ _ Hst Hl') as (_ & tmpl' & Hin' & Hid' & <-).
  f_equal. apply (NoDup_fmap_eq t_id (bee_templates st)); [apply Hst|done..|congruence].
Qed.


(** What a statement that keeps the catalog may do to the rows of [parts]:
    keep a row, with an amount that stays non-negative, or add a row of a
    template at the rarity of the template. *)
Lemma catalog_parts_keep (st st' : state) :
  bee_templates st' = bee_templates st →
  (∀ k a', parts st' !! k = Some a' →
           (∃ a, parts st !! k = Some a ∧ (0 ≤ a → 0 ≤ a')) ∨
           (0 ≤ a' ∧ ∃ tmpl, tmpl ∈ bee_templates st ∧
                             t_id tmpl = k.1.1.2 ∧ t_rarity tmpl = k.2)) →
  catalog_parts st → catalog_parts st'.
Proof.
  intros Ht Hrows [Hnd Hp]. split; [by rewrite Ht|].
  intros k a' Hl. rewrite Ht.
  destruct (Hrows k a' Hl) as [(a & Hold & Ha)|[Ha Hnew]].
  - destruct (Hp _ _ Hold) as [Ha0 Hex]. split; [by apply Ha|done].
  - split; [done|]. by apply Exists_exists.
Qed.

Lemma try_assemble_catalog_parts (st st' : state) (u t : Z) (r : string)
    (res : option Z) :
  yields (try_assemble st u t r) (st', res) →
  (catalog_parts st → catalog_parts st') ∧
  (0 < bees_id_seq st → 0 < bees_id_seq st').
Proof.
  intros Hy.
  apply try_assemble_yields in Hy as [(_ & -> & _)|(Hall & role & _ & ->)]; [done|].
  split; [|cbn; lia].
  apply catalog_parts_keep; [done|]. cbn [parts].
  intros [[[u' t'] pt'] r'] a' Hl. left.
  destruct (decide (u' = u ∧ t' = t ∧ r' = r ∧ pt' ∈ PART_TYPES))
    as [(-> & -> & -> & Hin)|Hn].
  - rewrite consume_all_lookup in Hl by done.
    specialize (Hall pt' Hin). unfold stock in Hall.
    destruct (parts st !! _) as [a|]; cbn in *; [|done].
    injection Hl as <-. exists a. split; [done|lia].
  - rewrite consume_all_lookup_other in Hl.
    + by exists a'.
    + intros pt0 Hpt0 [= -> -> -> ->]. by apply Hn.
Qed.

Lemma give_parts_catalog_parts (st : state) (u : Z) (tmpl : template_row)
    (pt : string) (a : Z) :
  tmpl ∈ bee_templates st → 0 ≤ a →
  catalog_parts st →
  catalog_parts (give_parts_to_user st u (t_id tmpl) pt (t_rarity tmpl) a).
Proof.
  intros Hin Ha. apply catalog_parts_keep; [done|].
  cbn [parts give_parts_to_user]. intros k a' Hl.
  destruct (decide (k = (u, t_id tmpl, pt, t_rarity tmpl))) as [->|Hne].
  - unfold upsert_parts in Hl.
    destruct (parts st !! (u, t_id tmpl, pt, t_rarity tmpl)) as [a0|] eqn:Hold;
      rewrite lookup_insert_eq in Hl; injection Hl as <-.
    + left. exists a0. split; [done|lia].
    + right. split; [done|]. by exists tmpl.
  - rewrite upsert_parts_lookup_ne in Hl by done. left. by exists a'.
Qed.

Lemma daily_spin_catalog_parts (st st' : state) (user : tg_user) (now : Z)
    (r : reply) :
  yields (cmd_daily_spin st user now) (st', r) →
  (catalog_parts st → catalog_parts st') ∧
  (0 < bees_id_seq st → 0 < bees_id_seq st').
Proof.
  intros Hy.
  apply daily_spin_yields in Hy
    as [(_ & _ & _ & _ & _ & -> & _)
       |[_ [(_ & -> & _)|(tmpl & pt & a & bee & Hin & _ & Ha & Hy & _)]]];
    [done..|].
  apply try_assemble_catalog_parts in Hy as [Hc Hs]. split; [|done].
  intros Hst. apply Hc.
  apply (give_parts_catalog_parts (ensure_user st user)); [done|lia|done].
Qed.

Lemma assemble_loop_catalog_parts (u t : Z) (l : list string) :
  ∀ (st st' : state) (acc res : option Z),
    yields (assemble_loop st u t l acc) (st', res) →
    (catalog_parts st → catalog_parts st') ∧
    (0 < bees_id_seq st → 0 < bees_id_seq st').
Proof.
  induction l as [|r l IH]; intros st st' acc res; cbn [assemble_loop].
  - intros Hy%yields_ret_inv. by injection Hy as -> ->.
  - intros ([st1 a1] & Hy1 & Hy)%yields_bind.
    apply try_assemble_catalog_parts in Hy1 as [Hc1 Hs1].
    assert (Hrest : (catalog_parts st1 → catalog_parts st') ∧
                    (0 < bees_id_seq st1 → 0 < bees_id_seq st')).
    { destruct (truthy a1); [|by eapply IH].
      apply yields_ret_inv in Hy. by injection Hy as -> ->. }
    destruct Hrest as [Hc Hs]. split; auto.
Qed.

Lemma assemble_catalog_parts (st st' : state) (u t : Z) (r : reply) :
  yields (assemble st u t) (st', r) →
  (catalog_parts st → catalog_parts st') ∧
  (0 < bees_id_seq st → 0 < bees_id_seq st').
Proof.
  unfold assemble. destruct (select_rarities (parts st) u t).
  { intros Hy%yields_ret_inv. by injection Hy as -> ->. }
  intros ([st1 res] & Hloop & Hy)%yields_bind.
  apply assemble_loop_catalog_parts in Hloop.
  assert (st' = st1) as ->; [|done].
  destruct res as [id|]; [destruct (truthy (Some id))|];
    apply yields_ret_inv in Hy; by injection Hy as -> ->.
Qed.

Lemma sell_part_catalog_parts (st : state) (u t : Z) (pt : string) (n : Z) :
  (catalog_parts st → catalog_parts (sell_part st u t pt n).1) ∧
  bees_id_seq (sell_part st u t pt n).1 = bees_id_seq st.
Proof.
  unfold sell_part. case_bool_decide; [|done].
  destruct (select_top_amount _ _ _ _) as [[a0 r0]|]; [|done].
  destruct (Z.ltb_spec a0 n); [done|].
  cbn [fst]. split; [|done].
  apply catalog_parts_keep; [done|]. cbn [parts set_users set_parts].
  intros [[[u' t'] pt'] r'] a'. rewrite reduce_parts_lookup.
  destruct (parts st !! _) as [a|] eqn:Hl; [|done].
  cbn. intros [= <-]. left. exists a. split; [done|]. case_decide; lia.
Qed.

Lemma step_catalog_parts (st st' : state) :
  step st st' →
  (catalog_parts st → catalog_parts st') ∧
  (0 < bees_id_seq st → 0 < bees_id_seq st').
Proof.
  intros [user|user now st1 r Hy|u t st1 r Hy|u t pt n|u b price|u lid].
  - done.
  - by eapply daily_spin_catalog_parts.
  - by eapply assemble_catalog_parts.
  - destruct (sell_part_catalog_parts st u t pt n) as [Hc Hs].
    split; [done|]. by rewrite Hs.
  - unfold sell_bee. by destruct (select_own_bee st b u).
  - unfold buy, settle_purchase. destruct (select_listing st lid) as [l|]; [|done].
    destruct (users st !! u) as [buyer|]; [|done].
    by destruct (coins buyer <? m_price l).
Qed.

(** Every store the requests lead to has the parts of a template at the
    template's rarity only, with non-negative amounts, and a bee sequence
    above 0. *)
Lemma reachable_catalog_parts (st : state) :
  reachable st → catalog_parts st ∧ 0 < bees_id_seq st.
Proof.
  induction 1 as [st (Hp & Hs & Hnd)|st st' _ [IHc IHs] Hstep].
  - split; [|lia]. split; [done|]. rewrite Hp. apply map_Forall_empty.
  - apply step_catalog_parts in Hstep as [Hc Hs]. auto.
Qed.


(** X30.  In every store the requests lead to, the parts a user holds of one
    template all have one rarity, the rarity of that template in the
    catalog, and no amount is negative. *)
Theorem reachable_one_rarity (st : state) (u t : Z) (pt r : string) (a : Z) :
  reachable st →
  parts st !! (u, t, pt, r) = Some a →
  0 ≤ a ∧
  (∃ tmpl, tmpl ∈ bee_templates st ∧ t_id tmpl = t ∧ t_rarity tmpl = r) ∧
  ∀ pt' r' a', parts st !! (u, t, pt', r') = Some a' → r' = r.
Proof.
  intros [Hst _]%reachable_catalog_parts Hl.
  destruct (catalog_parts_rarity _ _ _ _ _ _ Hst Hl) as [Ha Htmpl].
  split; [done|]. split; [done|].
  intros pt' r' a' Hl'. by eapply catalog_parts_one_rarity.
Qed.

(** ** Part sale: prices, failures and the empty sale *)

Lemma price_per_bounds (r : string) : 10 ≤ price_per r ≤ 50000.
Proof.
  unfold price_per.
  assert (Hall : map_Forall (λ _ v, 10 ≤ v ≤ 50000) RARITY_BASE_VALUE) by compute_done.
  destruct (RARITY_BASE_VALUE !! r) as [v|] eqn:Hr; cbn; [|lia].
  by apply (map_Forall_lookup_1 _ _ _ _ Hall Hr).
Qed.

(** X23.  The price of a part: the table value for the six rarities, rising with
    the position in [RARITIES], and never below 10 or above 50000 for any
    rarity text; so a sale of [n ≥ 0] parts pays between [10 n] and
    [50000 n] coins. *)
Theorem sell_part_total_bounds (st st' : state) (u t : Z) (pt : string) (n : Z)
    (n' : Z) (pt' r : string) (total : Z) :
  sell_part st u t pt n = (st', SoldParts n' pt' r total) →
  map price_per RARITIES = [50; 200; 800; 3000; 12000; 50000] ∧
  n' = n ∧ pt' = pt ∧ total = price_per r * n ∧
  (0 ≤ n → 10 * n ≤ total ≤ 50000 * n).
Proof.
  unfold sell_part. case_bool_decide; [|done].
  destruct (select_top_amount _ _ _ _) as [[a0 r0]|]; [|done].
  destruct (Z.ltb_spec a0 n); [done|].
  intros [= <- <- <- <- <-]. split; [by vm_compute|]. repeat (split; [done|]).
  intros Hn. pose proof (price_per_bounds r0). nia.
Qed.

(** X24.  A part sale that does not answer [SoldParts] changes nothing; it answers
    [BadPartType] exactly for a part-kind outside [PART_TYPES]; and no sale
    touches bees, the market, the catalog or the draw log. *)
Theorem sell_part_failure (st : state) (u t : Z) (pt : string) (n : Z) :
  ((sell_part st u t pt n).2 = BadPartType ↔ pt ∉ PART_TYPES) ∧
  ((∀ n' pt' r total, (sell_part st u t pt n).2 ≠ SoldParts n' pt' r total) →
   (sell_part st u t pt n).1 = st) ∧
  bees (sell_part st u t pt n).1 = bees st ∧
  market_listings (sell_part st u t pt n).1 = market_listings st ∧
  bee_templates (sell_part st u t pt n).1 = bee_templates st ∧
  spins_log (sell_part st u t pt n).1 = spins_log st.
Proof.
  unfold sell_part. case_bool_decide as Hpt.
  - destruct (select_top_amount _ _ _ _) as [[a0 r0]|]; [|by repeat split].
    destruct (Z.ltb_spec a0 n); [by repeat split|].
    cbn [fst snd]. split; [by split|]. split; [|done].
    intros Hno. by destruct (Hno n pt r0 (price_per r0 * n)).
  - by repeat split.
Qed.

Lemma reduce_parts_zero (u t : Z) (pt : string) (ps : gmap part_key Z) :
  reduce_parts 0 u t pt ps = ps.
Proof.
  apply map_eq. intros [[[u' t'] pt'] r'].
  rewrite reduce_parts_lookup. destruct (ps !! _) as [a|]; [|done].
  cbn. case_decide; f_equal; lia.
Qed.

Lemma update_coins_zero (u : Z) (us : gmap Z user_row) : update_coins u 0 us = us.
Proof.
  apply map_eq. intros id. unfold update_coins.
  destruct (decide (id = u)) as [->|Hne].
  - rewrite lookup_alter_eq. destruct (us !! u) as [[un nk c l]|]; [|done].
    cbn. by rewrite Z.add_0_r.
  - by rewrite lookup_alter_ne.
Qed.

(** X25.  The empty sale.  Selling 0 parts of a kind the user has a row of, with a
    non-negative amount, is accepted: it answers a sale of 0 parts for 0
    coins and changes nothing. *)
Theorem sell_part_zero (st : state) (u t : Z) (pt r : string) (a : Z) :
  pt ∈ PART_TYPES →
  parts st !! (u, t, pt, r) = Some a →
  0 ≤ a →
  ∃ r', sell_part st u t pt 0 = (st, SoldParts 0 pt r' 0).
Proof.
  intros Hpt Hrow Ha. unfold sell_part. rewrite bool_decide_eq_true_2 by done.
  destruct (select_top_amount (parts st) u t pt) as [[a0 r0]|] eqn:Htop.
  - destruct (select_top_amount_Some _ _ _ _ _ _ Htop) as [_ Hmax].
    specialize (Hmax r a Hrow).
    destruct (Z.ltb_spec a0 0); [lia|].
    exists r0. rewrite Z.mul_0_r. f_equal.
    unfold set_users, set_parts. cbn [users bee_templates parts bees bees_id_seq
      market_listings market_listings_id_seq spins_log].
    rewrite reduce_parts_zero, update_coins_zero. by destruct st.
  - by rewrite (select_top_amount_None _ _ _ _ Htop r) in Hrow.
Qed.

(** ** The order of the rarities *)

(** X27.  The list the loop of [/assemble] runs over, for any table of parts:
    the rarities of the user's rows of the template with a positive amount,
    each once, in ascending position in [RARITIES] (a rarity outside
    [RARITIES] counting as position 999). *)
Theorem assemble_order_spec (ps : gmap part_key Z) (u t : Z) :
  assemble_order ps u t ≡ₚ select_rarities ps u t ∧
  (∀ rar, rar ∈ assemble_order ps u t ↔
          ∃ pt a, ps !! (u, t, pt, rar) = Some a ∧ 0 < a) ∧
  NoDup (assemble_order ps u t) ∧
  Sorted (λ a b, rar_rank a ≤ rar_rank b) (assemble_order ps u t) ∧
  map rar_rank RARITIES = [0; 1; 2; 3; 4; 5] ∧
  ∀ rar, rar ∉ RARITIES → rar_rank rar = 999.
Proof.
  split; [apply sort_by_perm|]. split; [|split; [|split; [apply sort_by_sorted|]]].
  - intros rar. unfold assemble_order. by rewrite sort_by_perm, elem_of_select_rarities.
  - unfold assemble_order. rewrite sort_by_perm. apply NoDup_remove_dups.
  - split; [apply rar_rank_table|].
    intros rar Hrar. unfold rar_rank.
    destruct (rar_order !! rar) as [i|] eqn:Hi; [|done].
    destruct Hrar.
    assert (Hdom : map_Forall (λ k _, k ∈ RARITIES) rar_order) by compute_done.
    exact (Hdom _ _ Hi).
Qed.

(** X26.  Parts given can be sold back.  For a template of the catalog and an
    amount within INTEGER: when the user has no row of the (template,
    part-kind), the parts just given are the ones a sale of the same amount
    takes; it answers with their rarity and price and leaves that stock at
    0. *)
Theorem give_then_sell (st : state) (u t : Z) (pt r : string) (n : Z) :
  in_catalog st t → int8 u → int4 t → int4 n →
  (∀ row, users st !! u = Some row → int8 (coins row + price_per r * n)) →
  pt ∈ PART_TYPES →
  (∀ r', parts st !! (u, t, pt, r') = None) →
  ∃ st',
    sell_part (give_parts_to_user st u t pt r n) u t pt n =
      (st', SoldParts n pt r (price_per r * n)) ∧
    stock st' u t pt r = 0.
Proof.
  intros _ _ _ _ _ Hpt Hnone. unfold sell_part. rewrite bool_decide_eq_true_2 by done.
  set (st1 := give_parts_to_user st u t pt r n).
  assert (Hrow : ∀ r' a, parts st1 !! (u, t, pt, r') = Some a → r' = r ∧ a = n).
  { intros r' a. cbn [st1 parts give_parts_to_user]. unfold upsert_parts.
    rewrite (Hnone r). destruct (decide (r' = r)) as [->|Hne].
    - rewrite lookup_insert_eq. by intros [= ->].
    - rewrite lookup_insert_ne by congruence. by rewrite Hnone. }
  assert (Hhas : parts st1 !! (u, t, pt, r) = Some n).
  { cbn [st1 parts give_parts_to_user]. unfold upsert_parts.
    by rewrite (Hnone r), lookup_insert_eq. }
  destruct (select_top_amount (parts st1) u t pt) as [[a0 r0]|] eqn:Htop.
  - destruct (select_top_amount_Some _ _ _ _ _ _ Htop) as [Hl _].
    destruct (Hrow _ _ Hl) as [-> ->].
    rewrite Z.ltb_irrefl. eexists. split; [done|].
    unfold stock. cbn [parts set_users set_parts].
    rewrite reduce_parts_lookup, Hhas. cbn. rewrite decide_True by (repeat split; lia).
    cbn. lia.
  - by rewrite (select_top_amount_None _ _ _ _ Htop r) in Hhas.
Qed.

(** ** The further properties at the states of the examples *)

Lemma in_catalog_after_one_draw : in_catalog after_one_draw 1.
Proof.
  exists (TemplateRow 1 "Страж-Обы-1" "Обычная" "Танк" 50).
  split; [apply list_elem_of_here|reflexivity].
Defined.

Lemma give_parts_to_user_stock_witness :
  stock (give_parts_to_user after_one_draw 7 1 "крылья" "Обычная" 3) 7 1 "крылья" "Обычная" =
    stock after_one_draw 7 1 "крылья" "Обычная" + 3 ∧
  spins_log (give_parts_to_user after_one_draw 7 1 "крылья" "Обычная" 3) =
    spins_log after_one_draw ++ [SpinRow 7 1 "крылья" "Обычная" 3].
Proof.
  assert (Hs : stock after_one_draw 7 1 "крылья" "Обычная" = 2).
  { vm_compute. reflexivity. }
  destruct (give_parts_to_user_stock after_one_draw 7 1 "крылья" "Обычная" 3
              in_catalog_after_one_draw) as (Hstock & _ & Hlog & _).
  - unfold int8. lia.
  - unfold int4. lia.
  - unfold int4. lia.
  - rewrite Hs. unfold int4. lia.
  - split; [exact Hstock|exact Hlog].
Defined.

Lemma body_in_PART_TYPES : "тельце" ∈ PART_TYPES.
Proof. apply list_elem_of_further, list_elem_of_here. Defined.

Lemma give_then_sell_witness :
  ∃ st',
    sell_part (give_parts_to_user after_one_draw 7 1 "тельце" "Обычная" 3) 7 1 "тельце" 3 =
      (st', SoldParts 3 "тельце" "Обычная" (price_per "Обычная" * 3)) ∧
    stock st' 7 1 "тельце" "Обычная" = 0.
Proof.
  apply (give_then_sell after_one_draw 7 1 "тельце" "Обычная" 3
           in_catalog_after_one_draw).
  - unfold int8. lia.
  - unfold int4. lia.
  - unfold int4. lia.
  - intros row Hrow. vm_compute in Hrow. injection Hrow as <-.
    vm_compute. split; discriminate.
  - exact body_in_PART_TYPES.
  - intros r'. apply lookup_singleton_ne. intros H. discriminate H.
Defined.

Lemma first_draw_yields :
  yields (cmd_daily_spin fresh player 1000) (first_draw.1, first_draw.2).
Proof. apply first_outcome_yields. vm_compute. reflexivity. Defined.

Lemma first_draw_is_spin : is_spin_result first_draw.2.
Proof. vm_compute. exact I. Defined.

Lemma nonneg_fresh : nonneg_state fresh.
Proof. split; compute_done. Defined.

Lemma assembled_wild_yields :
  yields (try_assemble two_rarity_sets 7 1 "Дикая") (assembled_wild.1, Some 1).
Proof. apply first_outcome_yields. vm_compute. reflexivity. Defined.

Lemma assembled_on_demand_yields :
  yields (assemble two_rarity_sets 7 1) (assembled_on_demand.1, assembled_on_demand.2).
Proof. apply first_outcome_yields. vm_compute. reflexivity. Defined.

Lemma seeded_catalog_rarity_law_witness :
  (prob (pick_random_template seeded_catalog) (rarity_is "Дикая")
   == inject_Z (Z.of_nat 1) / 100)%Q.
Proof.
  apply (seeded_catalog_rarity_law seeded_catalog sample_items "Дикая" 1
           sample_items_yields).
  - vm_compute. reflexivity.
  - unfold RARITY_COUNTS. do 5 apply list_elem_of_further. apply list_elem_of_here.
Defined.

Lemma try_assemble_frame_witness :
  users assembled_wild.1 = users two_rarity_sets ∧
  market_listings assembled_wild.1 = market_listings two_rarity_sets ∧
  spins_log assembled_wild.1 = spins_log two_rarity_sets.
Proof.
  destruct (try_assemble_frame two_rarity_sets assembled_wild.1 7 1 "Дикая" (Some 1)
              assembled_wild_yields) as (Hu & _ & Hm & _ & Hs & _).
  split; [exact Hu|]. split; [exact Hm|exact Hs].
Defined.

Lemma bee_ids_fresh_two_rarity_sets : bee_ids_fresh two_rarity_sets.
Proof. constructor. Defined.

Lemma try_assemble_fresh_ids_witness :
  bee_ids_fresh assembled_wild.1 ∧
  (NoDup (b_id <$> bees two_rarity_sets) → NoDup (b_id <$> bees assembled_wild.1)).
Proof.
  exact (try_assemble_fresh_ids two_rarity_sets assembled_wild.1 7 1 "Дикая" (Some 1)
           assembled_wild_yields bee_ids_fresh_two_rarity_sets).
Defined.

Lemma listing_ids_fresh_with_listing : listing_ids_fresh with_listing.
Proof. unfold listing_ids_fresh. compute_done. Defined.

Lemma sell_bee_fresh_ids_witness :
  listing_ids_fresh (sell_bee with_listing 7 1 70).1 ∧
  select_listing (sell_bee with_listing 7 1 70).1 (market_listings_id_seq with_listing) =
    Some (ListingRow (market_listings_id_seq with_listing) 7 1 70).
Proof.
  destruct (sell_bee_fresh_ids with_listing 7 1 70 listing_ids_fresh_with_listing)
    as (Hf & _ & Hnew & _).
  split; [exact Hf|]. exact (Hnew owns_with_listing).
Defined.

Lemma draw_with_step (st : state) (now : Z) (draws : list nat) :
  match outcome (cmd_daily_spin st player now) draws with
  | Some _ => True
  | None => False
  end →
  step st (draw_with st now draws).1.
Proof.
  unfold draw_with. destruct (outcome _ draws) as [[st' r]|] eqn:Ho; [|done].
  intros _. cbn [default fst]. eapply step_daily_spin. by eapply outcome_yields.
Defined.

Lemma initial_fresh : initial fresh.
Proof.
  split; [reflexivity|]. split; [reflexivity|]. cbn. apply NoDup_singleton.
Defined.

Lemma reachable_four_draws : reachable four_draws.
Proof.
  unfold four_draws.
  eapply reachable_step; [|apply draw_with_step; vm_compute; exact I].
  eapply reachable_step; [|apply draw_with_step; vm_compute; exact I].
  eapply reachable_step; [|apply draw_with_step; vm_compute; exact I].
  eapply reachable_step; [|apply draw_with_step; vm_compute; exact I].
  apply reachable_initial. exact initial_fresh.
Defined.



Lemma four_draws_wings : parts four_draws !! (7, 1, "крылья", "Обычная") = Some 1.
Proof. vm_compute. reflexivity. Defined.

Lemma reachable_one_rarity_witness :
  0 ≤ 1 ∧
  (∃ tmpl, tmpl ∈ bee_templates four_draws ∧ t_id tmpl = 1 ∧ t_rarity tmpl = "Обычная") ∧
  ∀ pt' r' a', parts four_draws !! (7, 1, pt', r') = Some a' → r' = "Обычная".
Proof.
  exact (reachable_one_rarity four_draws 7 1 "крылья" "Обычная" 1
           reachable_four_draws four_draws_wings).
Defined.

Lemma four_draws_bee_yields :
  yields (try_assemble four_draws 7 1 "Обычная") (four_draws_bee.1, Some 2).
Proof. apply first_outcome_yields. vm_compute. reflexivity. Defined.

Lemma bee_ids_fresh_four_draws : bee_ids_fresh four_draws.
Proof. unfold bee_ids_fresh. compute_done. Defined.

Lemma assembled_bee_listable_witness :
  (sell_bee four_draws_bee.1 7 2 500).2 = Listed 2 500 ∧
  market_listings (sell_bee four_draws_bee.1 7 2 500).1 = [ListingRow 1 7 2 500] ∧
  sell_bee four_draws_bee.1 8 2 500 = (four_draws_bee.1, NotOwner).
Proof.
  destruct (assembled_bee_listable four_draws four_draws_bee.1 7 1 "Обычная" 2 500 8
              four_draws_bee_yields bee_ids_fresh_four_draws) as (Hs & _ & Hn).
  split; [rewrite Hs; reflexivity|].
  split; [rewrite Hs; vm_compute; reflexivity|].
  apply Hn. lia.
Defined.

Lemma first_draw_not_refused_witness :
  returns (cmd_daily_spin fresh player 1000) ∧
  ∀ st' r, yields (cmd_daily_spin fresh player 1000) (st', r) →
    (r = NoTemplate ∧ bee_templates fresh = []) ∨ is_spin_result r.
Proof.
  apply (first_draw_not_refused fresh player 1000).
  intros u Hu. vm_compute in Hu. discriminate Hu.
Defined.

Lemma second_draw_refused_witness :
  ∃ st2,
    cmd_daily_spin first_draw.1 player 2000 =
      Ret (st2, CooldownActive (hours24 - (2000 - 1000))) ∧
    parts st2 = parts first_draw.1 ∧ bees st2 = bees first_draw.1 ∧
    spins_log st2 = spins_log first_draw.1.
Proof.
  apply (second_draw_refused fresh first_draw.1 player 1000 2000 first_draw.2
           first_draw_yields first_draw_is_spin).
  vm_compute. reflexivity.
Defined.

Lemma cooldown_remaining_suffices_witness :
  0 < hours24 - (2000 - 1000) ∧
  ∀ st2 r2,
    yields (cmd_daily_spin (ensure_user after_one_draw player) player
              (2000 + (hours24 - (2000 - 1000)))) (st2, r2) →
    (r2 = NoTemplate ∧ bee_templates after_one_draw = []) ∨ is_spin_result r2.
Proof.
  apply (cooldown_remaining_suffices after_one_draw (ensure_user after_one_draw player)
           player 2000 (hours24 - (2000 - 1000))).
  apply first_outcome_yields. vm_compute. reflexivity.
Defined.

Lemma daily_spin_nonneg_witness : nonneg_state first_draw.1.
Proof.
  exact (daily_spin_nonneg fresh first_draw.1 player 1000 first_draw.2
           first_draw_yields nonneg_fresh).
Defined.

Lemma daily_spin_frame_witness :
  market_listings first_draw.1 = market_listings fresh ∧
  (bees first_draw.1 = bees fresh ∨
   ∃ b, bees first_draw.1 = bees fresh ++ [b] ∧ b_user_id b = tg_id player).
Proof.
  destruct (daily_spin_frame fresh first_draw.1 player 1000 first_draw.2
              first_draw_yields) as (_ & _ & Hm & Hb).
  split; [exact Hm|exact Hb].
Defined.

Lemma daily_spin_outcome_witness :
  ∃ tmpl pt a bee,
    tmpl ∈ bee_templates fresh ∧ pt ∈ PART_TYPES ∧ 1 ≤ a ≤ 10 ∧
    first_draw.2 = SpinResult (t_name tmpl) (t_rarity tmpl) pt a bee ∧
    (is_Some bee ↔
       ∀ pt', pt' ∈ PART_TYPES → pt' ≠ pt →
              1 ≤ stock fresh (tg_id player) (t_id tmpl) pt' (t_rarity tmpl)) ∧
    ∀ pt', pt' ∈ PART_TYPES →
      stock first_draw.1 (tg_id player) (t_id tmpl) pt' (t_rarity tmpl) =
        stock fresh (tg_id player) (t_id tmpl) pt' (t_rarity tmpl)
        + (if decide (pt' = pt) then a else 0)
        - (if bee then 1 else 0).
Proof.
  apply (daily_spin_outcome fresh first_draw.1 player 1000 first_draw.2
           first_draw_yields first_draw_is_spin nonneg_fresh).
  vm_compute. reflexivity.
Defined.

Lemma assemble_spec_witness :
  ∃ rar,
    assembled_on_demand.2 = Assembled (bees_id_seq two_rarity_sets) ∧
    complete_set two_rarity_sets 7 1 rar ∧
    (∀ rar', complete_set two_rarity_sets 7 1 rar' → rar_rank rar ≤ rar_rank rar').
Proof.
  destruct (assemble_spec two_rarity_sets assembled_on_demand.1 7 1 assembled_on_demand.2)
    as [(Hr & _)|[(Hr & _)|(rar & Hr & Hc & Hmin & _)]].
  - vm_compute. reflexivity.
  - exact assembled_on_demand_yields.
  - vm_compute in Hr. discriminate Hr.
  - vm_compute in Hr. discriminate Hr.
  - exists rar. split; [exact Hr|]. split; [exact Hc|exact Hmin].
Defined.

Lemma assemble_keeps_witness :
  users assembled_on_demand.1 = users two_rarity_sets ∧
  market_listings assembled_on_demand.1 = market_listings two_rarity_sets.
Proof.
  destruct (assemble_keeps two_rarity_sets assembled_on_demand.1 7 1 assembled_on_demand.2
              assembled_on_demand_yields) as (Hu & Hm & _).
  split; [exact Hu|exact Hm].
Defined.

Lemma sell_part_total_bounds_witness :
  sell_part two_rarity_sets 7 1 "крылья" 1 =
    ((sell_part two_rarity_sets 7 1 "крылья" 1).1, SoldParts 1 "крылья" "Дикая" 50000) ∧
  10 * 1 ≤ 50000 ≤ 50000 * 1.
Proof.
  assert (Hs : sell_part two_rarity_sets 7 1 "крылья" 1 =
               ((sell_part two_rarity_sets 7 1 "крылья" 1).1,
                SoldParts 1 "крылья" "Дикая" 50000)).
  { vm_compute. reflexivity. }
  split; [exact Hs|].
  destruct (sell_part_total_bounds two_rarity_sets
              (sell_part two_rarity_sets 7 1 "крылья" 1).1 7 1 "крылья" 1
              1 "крылья" "Дикая" 50000 Hs) as (_ & _ & _ & _ & Hb).
  apply Hb. lia.
Defined.

Lemma sell_part_zero_witness :
  ∃ r', sell_part two_rarity_sets 7 1 "крылья" 0 =
          (two_rarity_sets, SoldParts 0 "крылья" r' 0).
Proof.
  apply (sell_part_zero two_rarity_sets 7 1 "крылья" "Дикая" 2 wings_in_PART_TYPES).
  - vm_compute. reflexivity.
  - lia.
Defined.

Lemma nonneg_two_rarity_sets : nonneg_state two_rarity_sets.
Proof. split; compute_done. Defined.

Lemma sell_part_stock_nonneg_witness :
  map_Forall (λ _ a, 0 ≤ a) (parts (sell_part two_rarity_sets 7 1 "крылья" (-4)).1).
Proof.
  exact (sell_part_stock_nonneg two_rarity_sets 7 1 "крылья" (-4)
           (proj2 nonneg_two_rarity_sets)).
Defined.

Lemma sell_part_coins_nonneg_witness :
  map_Forall (λ _ v, 0 ≤ coins v) (users (sell_part two_rarity_sets 7 1 "крылья" 2).1).
Proof.
  apply (sell_part_coins_nonneg two_rarity_sets 7 1 "крылья" 2).
  - lia.
  - exact (proj1 nonneg_two_rarity_sets).
Defined.
